(** * Video classification: the training and inference script [train.py]

    A shallow embedding of [src/train.py]: the functions [train], [validate],
    [predict] and [main] are written as programs of a small state-and-exception
    monad over a world made of the file system, the random generator and
    a trace of the calls made on the deep-learning framework.  The model
    classes, the dataset class and the framework itself live outside the
    script ([models.py], [utils.py], torch, numpy, pandas); they are taken
    through the interface [Framework] below. *)

From Stdlib Require Import ZArith QArith List String Bool Lia Permutation.
From stdpp Require Import base gmap strings list.

Local Open Scope Z_scope.
Local Open Scope string_scope.
Local Open Scope list_scope.

(** ** Floating-point values

    Python floats, as far as the script looks at them: comparison, the
    special values [inf] and [nan], and the mean of a list.  Finite values
    are rationals; rounding is not modelled. *)

Module Float.

Inductive float := NaN | NegInf | Fin (q : Q) | PosInf.

Definition of_Z (z : Z) : float := Fin (inject_Z z).
Definition of_nat (n : nat) : float := of_Z (Z.of_nat n).

Definition zero : float := of_Z 0.

Definition is_finite (x : float) : bool :=
  match x with Fin _ => true | _ => false end.

Definition is_nan (x : float) : bool :=
  match x with NaN => true | _ => false end.

Definition Qltb (a b : Q) : bool := negb (Qle_bool b a).

(** [x < y]; false as soon as one side is [nan]. *)
Definition ltb (x y : float) : bool :=
  match x, y with
  | NaN, _ | _, NaN => false
  | PosInf, _ => false
  | _, NegInf => false
  | NegInf, _ => true
  | Fin _, PosInf => true
  | Fin a, Fin b => Qltb a b
  end.

(** [x <= y]; false as soon as one side is [nan]. *)
Definition leb (x y : float) : bool :=
  match x, y with
  | NaN, _ | _, NaN => false
  | NegInf, _ => true
  | _, PosInf => true
  | PosInf, _ => false
  | Fin _, NegInf => false
  | Fin a, Fin b => Qle_bool a b
  end.

Definition add (x y : float) : float :=
  match x, y with
  | NaN, _ | _, NaN => NaN
  | PosInf, NegInf | NegInf, PosInf => NaN
  | PosInf, _ | _, PosInf => PosInf
  | NegInf, _ | _, NegInf => NegInf
  | Fin a, Fin b => Fin (Qred (a + b))
  end.

(** Division of a sum by a count of elements ([n >= 0]). *)
Definition div_count (x : float) (n : nat) : float :=
  match n with
  | O =>
      match x with
      | Fin a => if Qeq_bool a 0 then NaN
                 else if Qltb 0 a then PosInf else NegInf
      | other => other
      end
  | S _ =>
      match x with
      | Fin a => Fin (Qred (a / inject_Z (Z.of_nat n)))
      | other => other
      end
  end.

Definition sum (l : list float) : float := fold_left add l zero.

End Float.

Import Float.

(** ** The numpy operations the script calls *)

(** [np.mean] of a Python list of floats: the sum over the count; the mean
    of the empty list is [nan] (numpy warns and returns it).  Sum and
    quotient are those of the rationals: the rounding and the overflow of
    float64 are outside the model, and the statements below name
    [np_mean] without a claim on the digits it returns. *)
Definition np_mean (l : list float) : float :=
  div_count (Float.sum l) (length l).

(** [np.inf] *)
Definition np_inf : float := PosInf.

(** [np.zeros((n,))] *)
Definition np_zeros (n : nat) : list float := repeat zero n.

(** The scan of [ndarray.argmax()] over the flattened array: the first
    maximum, a [nan] counting as the maximum.  [best] is the running
    maximum, [besti] its position, [i] the position of the head of [l]. *)
Fixpoint argmax_scan (l : list float) (i : nat) (best : float) (besti : nat) : nat :=
  match l with
  | [] => besti
  | x :: l' =>
      if is_nan best then besti
      else if negb (leb x best) then argmax_scan l' (S i) x i
      else argmax_scan l' (S i) best besti
  end.

(** [a.argmax()] with no [axis]: [a] is flattened first.  An empty array
    has no argmax ([ValueError]). *)
Definition np_argmax (a : list (list float)) : option nat :=
  match concat a with
  | [] => None
  | x :: l => Some (argmax_scan l 1 x 0)
  end.

(** [a.argmax(axis=1)]: one index per row (not what the script calls; kept
    to compare with). *)
Definition np_argmax_rows (a : list (list float)) : option (list nat) :=
  mapM (fun row => np_argmax [row]) a.

(** [arr[start:stop] = v] on a one-dimensional array, [0 <= start, stop]:
    the slice is clipped to the array; [v] has the length of the slice or
    is a single element, which is broadcast; otherwise numpy raises
    [ValueError]. *)
Definition slice_assign (arr : list float) (start stop : nat) (v : list float)
  : option (list float) :=
  let n := length arr in
  let lo := Nat.min start n in
  let hi := Nat.max lo (Nat.min stop n) in
  let len := (hi - lo)%nat in
  if (length v =? len)%nat then Some (firstn lo arr ++ v ++ skipn hi arr)
  else match v with
       | [x] => Some (firstn lo arr ++ repeat x len ++ skipn hi arr)
       | _ => None
       end.

(** ** Exceptions *)

Inductive Exn :=
| FileNotFoundError
| PermissionError
| UnpicklingError
| RuntimeError
| ValueError.

(** [FileNotFoundError] and [PermissionError] are subclasses of [OSError]
    (of which [IOError] is an alias). *)
Definition is_OSError (e : Exn) : bool :=
  match e with
  | FileNotFoundError | PermissionError => true
  | _ => false
  end.

(** ** A state-and-exception monad

    A computation runs on a world [W] and either returns a value or raises;
    in both cases the world reached is kept, so that what happened before an
    exception can still be inspected. *)

Inductive Res (W A : Type) :=
| Ok (a : A) (w : W)
| Raise (e : Exn) (w : W).
Arguments Ok {W A} a w.
Arguments Raise {W A} e w.

Definition M (W A : Type) : Type := W -> Res W A.

Definition ret {W A} (a : A) : M W A := fun w => Ok a w.

Definition bind {W A B} (c : M W A) (k : A -> M W B) : M W B :=
  fun w => match c w with
           | Ok a w' => k a w'
           | Raise e w' => Raise e w'
           end.

Definition raise {W A} (e : Exn) : M W A := fun w => Raise e w.

(** A partial library call: [None] is the exception [e]. *)
Definition lift_option {W A} (e : Exn) (o : option A) : M W A :=
  match o with
  | Some a => ret a
  | None => raise e
  end.

Declare Scope py_scope.
Delimit Scope py_scope with py.
Notation "'do' x <- c ;; k" := (bind c (fun x => k))
  (at level 10, x name, c at level 99, k at level 200) : py_scope.
Notation "'do' ' pat <- c ;; k" := (bind c (fun x => match x with pat => k end))
  (at level 10, pat pattern, c at level 99, k at level 200) : py_scope.
Notation "'run' c ;; k" := (bind c (fun _ => k))
  (at level 10, c at level 99, k at level 200) : py_scope.

(** The world reached by a run, and the value returned ([d] when the run
    raised). *)
Definition world_of {W A} (r : Res W A) : W :=
  match r with Ok _ w => w | Raise _ w => w end.

Definition value_of {W A} (d : A) (r : Res W A) : A :=
  match r with Ok a _ => a | Raise _ _ => d end.

(** ** The objects of the script *)

Inductive ModelKind := CNNtoRNNModel | AvgCNNModel.

Inductive Split := SplitTrain | SplitVal | SplitTest.

(** Logits: one row of class scores per video of the batch. *)
Definition Logits : Type := list (list float).

(** What [main] returns and [sys.exit] receives. *)
Inductive PyVal := PyNone | PyInt (z : Z).

(** The calls of the script on the framework, in the order they are made. *)
Inductive Event :=
| EvPrint (s : string)
| EvPrintEpoch (epoch : nat) (train_loss val_loss : float)
| EvNewModel (k : ModelKind) (frames : Z)
| EvLoadStateDict (file : string)
| EvSetFramesCnt (frames : Z)
| EvModelTrain
| EvModelEval
| EvForward (grad_enabled : bool) (logits : Logits)
| EvLoss (v : float)
| EvBackward
| EvOptStep
| EvZeroGrad
| EvSchedStep (v : float)
| EvSave (file : string)
| EvToCsv (file : string).

(** A cell and a column of a [pandas.DataFrame]. *)
Inductive Cell := CStr (s : string) | CNum (x : float).

(** The namespace returned by [parse_arguments]; [--model-type] is a plain
    string option, declared without [choices]. *)
Record Args := mkArgs {
  arg_name : string;
  arg_data : string;
  arg_batch_size : Z;
  arg_frames_cnt : Z;
  arg_model_type : string;
  arg_epochs : Z;
  arg_learning_rate : float;
  arg_gpu : bool;
  arg_predict : bool;
  arg_continue_training : bool
}.

(** The defaults declared in [parse_arguments]. *)
Definition default_args : Args :=
  {| arg_name := "baseline";
     arg_data := "./data";
     arg_batch_size := 16;
     arg_frames_cnt := 16;
     arg_model_type := "cnn-avg";
     arg_epochs := 5;
     arg_learning_rate := Fin (1 # 1000);
     arg_gpu := false;
     arg_predict := false;
     arg_continue_training := false |}.

(** ** The framework

    What the script takes from [models.py], [utils.py] and torch.  A module
    holds parameters (changed by the optimizer only) and buffers (running
    statistics, which a forward pass may change); both are saved in its
    state dict. *)

Class Framework := {
  Video : Type;
  Params : Type;
  Buffers : Type;
  Grads : Type;
  OptState : Type;
  SchedState : Type;
  Criterion : Type;
  Rng : Type;
  (** the constructors [CNNtoRNNModel(frames_cnt=..)], [AvgCNNModel(..)] *)
  model_init : ModelKind -> Z -> Rng -> Params * Buffers * Rng;
  (** gradients of a fresh module *)
  grad_init : Grads;
  (** [model(videos)]: the logits, and the buffers after the pass *)
  forward : ModelKind -> Z -> bool -> Params -> Buffers -> list Video -> Logits * Buffers;
  (** whether [load_state_dict] accepts a state dict (strict matching) *)
  strict_match : ModelKind -> Z -> Params * Buffers -> bool;
  (** [nn.CrossEntropyLoss()] *)
  CrossEntropyLoss : Criterion;
  (** [loss_fn(pred_labels, labels).item()] *)
  loss_value : Criterion -> Logits -> list Z -> float;
  (** [loss.backward()]: gradients accumulate *)
  loss_backward : Criterion -> ModelKind -> Z -> Params -> Buffers -> list Video -> list Z -> Grads -> Grads;
  (** [optim.Adam(params, lr=.., amsgrad=True)]; an invalid rate is refused *)
  Adam : float -> option OptState;
  (** [optimizer.step()] *)
  adam_step : OptState -> Params -> Grads -> OptState * Params;
  (** [optimizer.zero_grad()] *)
  zero_grad : Grads -> Grads;
  (** [ReduceLROnPlateau(optimizer, patience=6, factor=0.3)] *)
  ReduceLROnPlateau : SchedState;
  (** [lr_scheduler.step(val_loss)] *)
  plateau_step : SchedState -> float -> OptState -> SchedState * OptState;
  (** the order drawn by a shuffling loader *)
  randperm : Rng -> nat -> list nat * Rng;
  randperm_perm : forall r n, Permutation (fst (randperm r n)) (seq 0 n)
}.

Local Open Scope py_scope.

(** ** The script *)

Section Script.

Context `{Framework}.

(** A state dict: the parameters and the buffers of a module. *)
Definition StateDict : Type := Params * Buffers.

(** A module object: its class and constructor argument, the
    training flag set by [model.train()] and [model.eval()], and its
    tensors. *)
Record Model := mkModel {
  m_kind : ModelKind;
  m_frames_cnt : Z;
  m_training : bool;
  m_params : Params;
  m_buffers : Buffers;
  m_grads : Grads
}.

Definition state_dict (m : Model) : StateDict := (m_params m, m_buffers m).

(** A [VideoDataset]: its attribute [video_names], and the samples
    [dataset[0], dataset[1], ...] as (frames, label) pairs; its [len] is
    the number of samples. *)
Record VideoDataset := mkVideoDataset {
  video_names : list string;
  items : list (Video * Z)
}.

(** A [DataLoader], with the options the script sets. *)
Record DataLoader := mkDataLoader {
  dataset : VideoDataset;
  batch_size : nat;
  shuffle : bool;
  drop_last : bool
}.

(** A batch as the loader yields it: the stacked inputs and the labels. *)
Definition Batch : Type := list Video * list Z.

(** A [pandas.DataFrame]: named columns of one length. *)
Definition DataFrame : Type := list (string * list Cell).

(** What a file holds. *)
Inductive Data :=
| Checkpoint (sd : StateDict)
| Table (header : list string) (rows : list (list Cell))
| Bytes (b : string).

(** A file: whether the process may read it, and what it holds. *)
Record Node := mkNode {
  readable : bool;
  content : Data
}.

(** The world of a run. *)
Record World := mkWorld {
  fs : gmap string Node;
  (** what [VideoDataset(data, transforms, split=..)] finds on disk *)
  disk : string -> Split -> option VideoDataset;
  cuda_available : bool;
  rng : Rng;
  (** the global of [utils] written by [set_frames_cnt] *)
  frames_cnt : Z;
  trace : list Event
}.

Definition Py (A : Type) : Type := M World A.

(** *** World primitives *)

Definition emit (e : Event) : Py unit :=
  fun w => Ok tt {| fs := fs w; disk := disk w; cuda_available := cuda_available w;
                    rng := rng w; frames_cnt := frames_cnt w;
                    trace := trace w ++ [e] |}.

Definition set_fs (f : gmap string Node) (w : World) : World :=
  {| fs := f; disk := disk w; cuda_available := cuda_available w;
     rng := rng w; frames_cnt := frames_cnt w; trace := trace w |}.

Definition set_rng (r : Rng) (w : World) : World :=
  {| fs := fs w; disk := disk w; cuda_available := cuda_available w;
     rng := r; frames_cnt := frames_cnt w; trace := trace w |}.

(** [open(path, "rb")] followed by reading the file. *)
Definition open_rb (path : string) : Py Data :=
  fun w => match fs w !! path with
           | None => Raise FileNotFoundError w
           | Some nd => if readable nd then Ok (content nd) w
                        else Raise PermissionError w
           end.

(** [open(path, "wb")] followed by writing [d]: the file is created, or
    truncated and keeps its permissions.  The working directory is
    taken to be writable. *)
Definition write_file (path : string) (d : Data) : Py unit :=
  fun w => let r := match fs w !! path with
                    | Some nd => readable nd
                    | None => true
                    end in
           Ok tt (set_fs (<[path := {| readable := r; content := d |}]> (fs w)) w).

(** [torch.load(fp, map_location="cpu")] *)
Definition torch_load (d : Data) : Py StateDict :=
  match d with
  | Checkpoint sd => ret sd
  | _ => raise UnpicklingError
  end.

(** [torch.save(model.state_dict(), fp)] inside [with open(path, "wb")] *)
Definition torch_save (sd : StateDict) (path : string) : Py unit :=
  run write_file path (Checkpoint sd) ;;
  emit (EvSave path).

(** *** Module and optimizer calls *)

Definition set_training (b : bool) (m : Model) : Model :=
  {| m_kind := m_kind m; m_frames_cnt := m_frames_cnt m; m_training := b;
     m_params := m_params m; m_buffers := m_buffers m; m_grads := m_grads m |}.

Definition set_buffers (b : Buffers) (m : Model) : Model :=
  {| m_kind := m_kind m; m_frames_cnt := m_frames_cnt m; m_training := m_training m;
     m_params := m_params m; m_buffers := b; m_grads := m_grads m |}.

Definition set_grads (g : Grads) (m : Model) : Model :=
  {| m_kind := m_kind m; m_frames_cnt := m_frames_cnt m; m_training := m_training m;
     m_params := m_params m; m_buffers := m_buffers m; m_grads := g |}.

Definition set_params (p : Params) (m : Model) : Model :=
  {| m_kind := m_kind m; m_frames_cnt := m_frames_cnt m; m_training := m_training m;
     m_params := p; m_buffers := m_buffers m; m_grads := m_grads m |}.

(** [model.train()] *)
Definition model_train (m : Model) : Py Model :=
  run emit EvModelTrain ;; ret (set_training true m).

(** [model.eval()] *)
Definition model_eval (m : Model) : Py Model :=
  run emit EvModelEval ;; ret (set_training false m).

(** [model(videos).cpu()], with gradients recorded or, under
    [torch.no_grad()], not. *)
Definition model_call (grad_enabled : bool) (m : Model) (videos : list Video)
  : Py (Logits * Model) :=
  let '(logits, b) :=
    forward (m_kind m) (m_frames_cnt m) (m_training m) (m_params m) (m_buffers m) videos in
  run emit (EvForward grad_enabled logits) ;;
  ret (logits, set_buffers b m).

(** [loss_fn(pred_labels, labels)] and [loss.item()] *)
Definition loss_item (loss_fn : Criterion) (pred_labels : Logits) (labels : list Z)
  : Py float :=
  let v := loss_value loss_fn pred_labels labels in
  run emit (EvLoss v) ;; ret v.

(** [loss.backward()]: the gradient of the loss of this batch, taken at
    the module as it was at the forward pass [m0], is accumulated. *)
Definition backward (loss_fn : Criterion) (m0 m : Model)
           (videos : list Video) (labels : list Z) : Py Model :=
  run emit EvBackward ;;
  ret (set_grads (loss_backward loss_fn (m_kind m0) (m_frames_cnt m0) (m_params m0)
                                (m_buffers m0) videos labels (m_grads m)) m).

(** [optimizer.step()]: the optimizer holds the parameters of the module
    and updates them in place. *)
Definition optimizer_step (o : OptState) (m : Model) : Py (OptState * Model) :=
  let '(o', p) := adam_step o (m_params m) (m_grads m) in
  run emit EvOptStep ;;
  ret (o', set_params p m).

(** [optimizer.zero_grad()] *)
Definition optimizer_zero_grad (m : Model) : Py Model :=
  run emit EvZeroGrad ;;
  ret (set_grads (zero_grad (m_grads m)) m).

(** [lr_scheduler.step(val_loss)]: the scheduler may lower the learning
    rate kept in the optimizer. *)
Definition scheduler_step (s : SchedState) (val_loss : float) (o : OptState)
  : Py (SchedState * OptState) :=
  run emit (EvSchedStep val_loss) ;;
  ret (plateau_step s val_loss o).

(** [module.load_state_dict(sd)]: strict matching, [RuntimeError] on
    missing or unexpected entries. *)
Definition load_state_dict (m : Model) (sd : StateDict) : Py Model :=
  if strict_match (m_kind m) (m_frames_cnt m) sd
  then ret (set_buffers (snd sd) (set_params (fst sd) m))
  else raise RuntimeError.

(** *** Datasets and loaders *)

(** [VideoDataset(data, transforms, split=..)] *)
Definition new_VideoDataset (data : string) (split : Split) : Py VideoDataset :=
  fun w => match disk w data split with
           | Some ds => Ok ds w
           | None => Raise FileNotFoundError w
           end.

(** [data.DataLoader(ds, batch_size=.., shuffle=.., drop_last=..)]; a
    batch size that is not positive is refused. *)
Definition new_DataLoader (ds : VideoDataset) (bs : Z) (shuffle drop_last : bool)
  : Py DataLoader :=
  if (bs <=? 0)%Z then raise ValueError
  else ret {| dataset := ds; batch_size := Z.to_nat bs;
              shuffle := shuffle; drop_last := drop_last |}.

(** The batch sampler of a loader: indices are collected until a batch
    is full; what is left at the end is yielded unless [drop_last]. *)
Fixpoint batch_sampler {A} (bs : nat) (drop_last : bool) (l batch : list A)
  : list (list A) :=
  match l with
  | [] => if negb drop_last && (0 <? length batch)%nat then [batch] else []
  | x :: l' =>
      let batch' := batch ++ [x] in
      if (length batch' =? bs)%nat
      then batch' :: batch_sampler bs drop_last l' []
      else batch_sampler bs drop_last l' batch'
  end.

(** Modelled from the spec: [collate_fn] of [utils.py], which is not
    among the sources; collation is a straight stack of the samples'
    frame sequences, with the labels aligned.  A [Video] of the interface
    carries no frame count, so the rejection of samples whose frame
    counts disagree is outside the model: here a pass over a loader
    always yields its batches, and a statement that a function over a
    loader returns is to be read for a pass that yields them. *)
Definition collate_fn (samples : list (Video * Z)) : Batch :=
  (map fst samples, map snd samples).

(** The order in which a loader visits its dataset. *)
Definition sampler (loader : DataLoader) : Py (list nat) :=
  let n := length (items (dataset loader)) in
  if shuffle loader
  then fun w => let '(idx, r) := randperm (rng w) n in Ok idx (set_rng r w)
  else ret (seq 0 n).

(** [dataset[i]] for each index of the order. *)
Definition fetch (ds : VideoDataset) (idx : list nat) : list (Video * Z) :=
  omap (fun i => items ds !! i) idx.

(** One pass over a loader: the batches of [for inputs, labels in loader]. *)
Definition iter_loader (loader : DataLoader) : Py (list Batch) :=
  do idx <- sampler loader ;;
  ret (map collate_fn
           (batch_sampler (batch_size loader) (drop_last loader)
                          (fetch (dataset loader) idx) [])).

(** *** [train] *)

(** The body of the loop of [train], over the batches left. *)
Fixpoint train_loop (loss_fn : Criterion) (batches : list Batch)
         (m : Model) (o : OptState) (train_loss : list float)
  : Py (list float * Model * OptState) :=
  match batches with
  | [] => ret (train_loss, m, o)
  | (videos, labels) :: rest =>
      do '(pred_labels, m1) <- model_call true m videos ;;
      do loss <- loss_item loss_fn pred_labels labels ;;
      let train_loss := train_loss ++ [loss] in
      do m2 <- backward loss_fn m m1 videos labels ;;
      do '(o, m3) <- optimizer_step o m2 ;;
      do m4 <- optimizer_zero_grad m3 ;;
      train_loop loss_fn rest m4 o train_loss
  end.

(** [train(model, loader, loss_fn, optimizer, device)]: the mean loss;
    the module and the optimizer, which Python passes by reference,
    come back as they are after the call. *)
Definition train (m : Model) (loader : DataLoader) (loss_fn : Criterion) (o : OptState)
  : Py (float * Model * OptState) :=
  do m <- model_train m ;;
  do batches <- iter_loader loader ;;
  do '(train_loss, m, o) <- train_loop loss_fn batches m o [] ;;
  ret (np_mean train_loss, m, o).

(** *** [validate] *)

Fixpoint validate_loop (loss_fn : Criterion) (batches : list Batch)
         (m : Model) (val_loss : list float) : Py (list float * Model) :=
  match batches with
  | [] => ret (val_loss, m)
  | (videos, labels) :: rest =>
      do '(pred_labels, m) <- model_call false m videos ;;
      do loss <- loss_item loss_fn pred_labels labels ;;
      let val_loss := val_loss ++ [loss] in
      validate_loop loss_fn rest m val_loss
  end.

(** [validate(model, loader, loss_fn, device)] *)
Definition validate (m : Model) (loader : DataLoader) (loss_fn : Criterion)
  : Py (float * Model) :=
  do m <- model_eval m ;;
  do batches <- iter_loader loader ;;
  do '(val_loss, m) <- validate_loop loss_fn batches m [] ;;
  ret (np_mean val_loss, m).

(** *** [predict] *)

(** The loop of [predict]; [i] is the counter of [enumerate]. *)
Fixpoint predict_loop (bs : nat) (batches : list Batch) (i : nat)
         (m : Model) (predictions labels : list float)
  : Py (list float * list float * Model) :=
  match batches with
  | [] => ret (predictions, labels, m)
  | (videos, label) :: rest =>
      do '(pred_labels, m) <- model_call false m videos ;;
      do prediction <- lift_option ValueError (np_argmax pred_labels) ;;
      do predictions <-
        lift_option ValueError
          (slice_assign predictions (i * bs) ((i + 1) * bs) [of_nat prediction]) ;;
      do labels <-
        lift_option ValueError
          (slice_assign labels (i * bs) ((i + 1) * bs) (map of_Z label)) ;;
      predict_loop bs rest (S i) m predictions labels
  end.

(** [predict(model, loader, device)] *)
Definition predict (m : Model) (loader : DataLoader)
  : Py (list float * list float * Model) :=
  do m <- model_eval m ;;
  let predictions := np_zeros (length (items (dataset loader))) in
  let labels := np_zeros (length (items (dataset loader))) in
  do batches <- iter_loader loader ;;
  predict_loop (batch_size loader) batches 0 m predictions labels.

(** *** [pandas] *)

(** [pd.DataFrame({..})] from a dict of arrays: all of one length, or
    [ValueError]. *)
Definition new_DataFrame (cols : list (string * list Cell)) : Py DataFrame :=
  match cols with
  | [] => ret cols
  | (_, c) :: rest =>
      if forallb (fun nc => (length (snd nc) =? length c)%nat) rest
      then ret cols
      else raise ValueError
  end.

Definition df_rows (df : DataFrame) : list (list Cell) :=
  match df with
  | [] => []
  | (_, c) :: _ => map (fun i => omap (fun nc => snd nc !! i) df) (seq 0 (length c))
  end.

(** [df.to_csv(path, index=False)]: the header, then one line per row. *)
Definition to_csv (df : DataFrame) (path : string) : Py unit :=
  run write_file path (Table (map fst df) (df_rows df)) ;;
  emit (EvToCsv path).

(** *** [main] *)

Definition best_path (args : Args) : string := arg_name args ++ "_best.pth".

Definition csv_path (args : Args) : string := arg_name args ++ "_test_predictions.csv".

(** The constructor call of a model class: weights are drawn (or
    read from the pretrained backbone); a fresh module is in training
    mode. *)
Definition new_model (k : ModelKind) (frames : Z) : Py Model :=
  do '(p, b) <- (fun w => let '(p, b, r) := model_init k frames (rng w) in
                          Ok (p, b) (set_rng r w)) ;;
  run emit (EvNewModel k frames) ;;
  ret {| m_kind := k; m_frames_cnt := frames; m_training := true;
         m_params := p; m_buffers := b; m_grads := grad_init |}.

(** Lines 92 to 97: the model is created. *)
Definition create_model (args : Args) : Py Model :=
  run emit (EvPrint "Creating model...") ;;
  if String.eqb (arg_model_type args) "cnn-rnn"
  then new_model CNNtoRNNModel (arg_frames_cnt args)
  else new_model AvgCNNModel (arg_frames_cnt args).

(** The block [with open(f"{args.name}_best.pth", "rb") as fp: ...]. *)
Definition load_best (args : Args) (m : Model) : Py Model :=
  do fp <- open_rb (best_path args) ;;
  do best_state_dict <- torch_load fp ;;
  do m <- load_state_dict m best_state_dict ;;
  run emit (EvLoadStateDict (best_path args)) ;;
  ret m.

(** [model.to(device)]: the device is [cuda:0] under [--gpu]. *)
Definition model_to (args : Args) (m : Model) : Py Model :=
  fun w => if arg_gpu args && negb (cuda_available w)
           then Raise RuntimeError w else Ok m w.

(** [set_frames_cnt(args.frames_cnt)] *)
Definition set_frames_cnt (n : Z) : Py unit :=
  fun w => emit (EvSetFramesCnt n)
                {| fs := fs w; disk := disk w; cuda_available := cuda_available w;
                   rng := rng w; frames_cnt := n; trace := trace w |}.

(** The objects the epochs work on: the module, the optimizer, the
    scheduler and [best_val_loss]. *)
Definition Training : Type := Model * OptState * SchedState * float.

(** The body of [for epoch in range(args.epochs)]. *)
Definition epoch_body (args : Args) (train_dataloader val_dataloader : DataLoader)
           (criterion : Criterion) (epoch : nat) (t : Training) : Py Training :=
  let '(m, optimizer, lr_scheduler, best_val_loss) := t in
  do '(train_loss, m, optimizer) <- train m train_dataloader criterion optimizer ;;
  do '(val_loss, m) <- validate m val_dataloader criterion ;;
  do '(lr_scheduler, optimizer) <- scheduler_step lr_scheduler val_loss optimizer ;;
  run emit (EvPrintEpoch epoch train_loss val_loss) ;;
  if ltb val_loss best_val_loss
  then
    run torch_save (state_dict m) (best_path args) ;;
    ret (m, optimizer, lr_scheduler, val_loss)
  else ret (m, optimizer, lr_scheduler, best_val_loss).

(** [n] more epochs, starting with number [epoch]. *)
Fixpoint epochs_loop (args : Args) (train_dataloader val_dataloader : DataLoader)
         (criterion : Criterion) (n epoch : nat) (t : Training) : Py Training :=
  match n with
  | O => ret t
  | S n' =>
      do t' <- epoch_body args train_dataloader val_dataloader criterion epoch t ;;
      epochs_loop args train_dataloader val_dataloader criterion n' (S epoch) t'
  end.

(** Lines 108 to 132: the branch [if not args.predict]. *)
Definition training (args : Args) (m : Model) : Py Model :=
  run emit (EvPrint "Reading data...") ;;
  do train_dataset <- new_VideoDataset (arg_data args) SplitTrain ;;
  do train_dataloader <- new_DataLoader train_dataset (arg_batch_size args) true true ;;
  do val_dataset <- new_VideoDataset (arg_data args) SplitVal ;;
  do val_dataloader <- new_DataLoader val_dataset (arg_batch_size args) false false ;;
  do optimizer <- lift_option ValueError (Adam (arg_learning_rate args)) ;;
  let lr_scheduler := ReduceLROnPlateau in
  let criterion := CrossEntropyLoss in
  run emit (EvPrint "Ready for training...") ;;
  let best_val_loss := np_inf in
  do '(m, _, _, _) <-
    epochs_loop args train_dataloader val_dataloader criterion
                (Z.to_nat (arg_epochs args)) 0
                (m, optimizer, lr_scheduler, best_val_loss) ;;
  ret m.

(** Lines 84 to 137: everything before the checkpoint is read back. *)
Definition prepare (args : Args) : Py (Model * VideoDataset * DataLoader) :=
  do m <- create_model args ;;
  do m <- (if arg_continue_training args then load_best args m else ret m) ;;
  do m <- model_to args m ;;
  run set_frames_cnt (arg_frames_cnt args) ;;
  do m <- (if negb (arg_predict args) then training args m else ret m) ;;
  do test_dataset <- new_VideoDataset (arg_data args) SplitTest ;;
  do test_dataloader <- new_DataLoader test_dataset (arg_batch_size args) false false ;;
  ret (m, test_dataset, test_dataloader).

(** Lines 139 to 146: the checkpoint is read back, the test split is
    predicted and the table is written. *)
Definition infer (args : Args) (m : Model) (test_dataset : VideoDataset)
           (test_dataloader : DataLoader) : Py PyVal :=
  do m <- load_best args m ;;
  do '(test_predictions, test_labels, _) <- predict m test_dataloader ;;
  do df <- new_DataFrame [("video_names", map CStr (video_names test_dataset));
                          ("predictions", map CNum test_predictions);
                          ("labels", map CNum test_labels)] ;;
  run to_csv df (csv_path args) ;;
  ret PyNone.

(** [main(args)]; it ends without a [return], that is with [None]. *)
Definition main (args : Args) : Py PyVal :=
  do '(m, test_dataset, test_dataloader) <- prepare args ;;
  infer args m test_dataset test_dataloader.

(** [sys.exit(v)]: [None] is status 0, an integer is the status. *)
Definition sys_exit (v : PyVal) : Z :=
  match v with
  | PyNone => 0
  | PyInt z => Z.land z 255
  end.

(** The script run on parsed arguments: [sys.exit(main(args))]; an
    exception that nothing catches ends the process with status 1. *)
Definition script (args : Args) (w : World) : Z * World :=
  match main args w with
  | Ok v w' => (sys_exit v, w')
  | Raise _ w' => (1, w')
  end.

(** *** Vocabulary of the statements *)

(** What a call leaves of the world: the events it adds to the trace,
    the files and the datasets untouched. *)
Definition adds (w w' : World) (evs : list Event) : Prop :=
  trace w' = trace w ++ evs /\ fs w' = fs w /\ disk w' = disk w.

(** The batches of a pass, given the order drawn. *)
Definition batches_of (loader : DataLoader) (idx : list nat) : list Batch :=
  map collate_fn
      (batch_sampler (batch_size loader) (drop_last loader)
                     (fetch (dataset loader) idx) []).

(** One batch of an epoch, as seen from outside: the batch, the logits
    of the forward pass and the loss value. *)
Definition Step : Type := Batch * Logits * float.

Definition step_batch (s : Step) : Batch := fst (fst s).
Definition step_logits (s : Step) : Logits := snd (fst s).
Definition step_loss (s : Step) : float := snd s.

(** The loss of a step is the criterion applied to its logits and to
    the labels of its batch. *)
Definition loss_of (loss_fn : Criterion) (s : Step) : Prop :=
  step_loss s = loss_value loss_fn (step_logits s) (snd (step_batch s)).

(** The calls made for one training batch, in order. *)
Definition train_events (s : Step) : list Event :=
  [EvForward true (step_logits s); EvLoss (step_loss s);
   EvBackward; EvOptStep; EvZeroGrad].

(** The calls made for one validation batch, in order. *)
Definition validate_events (s : Step) : list Event :=
  [EvForward false (step_logits s); EvLoss (step_loss s)].

(** Two states of a module that differ at most in the training flag
    and in the buffers. *)
Definition same_weights (m m' : Model) : Prop :=
  m_params m' = m_params m /\ m_grads m' = m_grads m /\
  m_kind m' = m_kind m /\ m_frames_cnt m' = m_frames_cnt m.

(** A list of batches all full except possibly the last, which is not
    empty. *)
Fixpoint full_but_last {A} (bs : nat) (cs : list (list A)) : Prop :=
  match cs with
  | [] => True
  | [c] => (0 < length c <= bs)%nat
  | c :: rest => length c = bs /\ full_but_last bs rest
  end.

(** Whether an event is the writing of a checkpoint. *)
Definition is_save (e : Event) : bool :=
  match e with EvSave _ => true | _ => false end.

(** The node left by writing [d] at [path]. *)
Definition written (f : gmap string Node) (path : string) (d : Data) : Node :=
  {| readable := match f !! path with Some nd => readable nd | None => true end;
     content := d |}.

(** A file that holds a checkpoint. *)
Definition has_checkpoint (f : gmap string Node) (path : string) : Prop :=
  exists nd sd, f !! path = Some nd /\ content nd = Checkpoint sd.

(** The validation loss handed to the scheduler in an epoch is finite. *)
Definition sched_finite (e : Event) : Prop :=
  match e with EvSchedStep v => is_finite v = true | _ => True end.

(** A loader as [main] makes it for the test split: in order, nothing
    dropped. *)
Definition sequential (loader : DataLoader) : Prop :=
  shuffle loader = false /\ drop_last loader = false /\ (0 < batch_size loader)%nat.

(** The table [main] hands to pandas. *)
Definition predictions_frame (ds : VideoDataset) (predictions labels : list float)
  : DataFrame :=
  [("video_names", map CStr (video_names ds));
   ("predictions", map CNum predictions);
   ("labels", map CNum labels)].

(** A relation between the world before a call and the world the call
    leaves, whether it returns or raises. *)
Definition always {A} (R : World -> World -> Prop) (c : Py A) : Prop :=
  forall w, R w (world_of (c w)).

(** Only the files in [P] may differ, and only events in [Q] are added
    to the trace. *)
Definition within (P : string -> Prop) (Q : Event -> Prop) (w w' : World) : Prop :=
  (forall path, ~ P path -> fs w' !! path = fs w !! path) /\
  exists evs, trace w' = trace w ++ evs /\ Forall Q evs.

(** The calls of an inference: switching to evaluation mode and forward
    passes without gradients. *)
Definition inference_event (e : Event) : Prop :=
  match e with
  | EvModelEval | EvForward false _ => True
  | _ => False
  end.

(** The calls that only a training makes. *)
Definition training_event (e : Event) : Prop :=
  match e with
  | EvModelTrain | EvForward true _ | EvLoss _ | EvBackward | EvOptStep
  | EvZeroGrad | EvSchedStep _ | EvSave _ | EvPrintEpoch _ _ _ => True
  | _ => False
  end.

(** One batch of a prediction, as seen from outside: the batch, the
    logits of the forward pass and the index stored for the batch. *)
Definition PredStep : Type := Batch * Logits * nat.

Definition pred_batch (s : PredStep) : Batch := fst (fst s).
Definition pred_logits (s : PredStep) : Logits := snd (fst s).
Definition pred_index (s : PredStep) : nat := snd s.

(** The entries of the predictions array written for one batch. *)
Definition pred_entries (s : PredStep) : list float :=
  repeat (of_nat (pred_index s)) (length (fst (pred_batch s))).

(** The validation losses handed to the scheduler, in order. *)
Definition sched_values (evs : list Event) : list float :=
  flat_map (fun e => match e with EvSchedStep v => [v] | _ => [] end) evs.

(** The calls [main] makes outside the epochs and outside [predict]. *)
Definition setup_event (e : Event) : Prop :=
  match e with
  | EvPrint _ | EvNewModel _ _ | EvLoadStateDict _ | EvSetFramesCnt _ | EvToCsv _ => True
  | _ => False
  end.

(** The logits of a step come from a forward pass of the module [m],
    whatever its buffers were by then, on the videos of the batch. *)
Definition forwarded (m : Model) (s : PredStep) : Prop :=
  exists b, pred_logits s
            = fst (forward (m_kind m) (m_frames_cnt m) (m_training m) (m_params m) b
                           (fst (pred_batch s))).

(** The index stored for a step is the argmax of its flattened logits. *)
Definition flat_argmax (s : PredStep) : Prop :=
  np_argmax (pred_logits s) = Some (pred_index s).

(** The model returns one row of [nc] class scores per video. *)
Definition logits_shape (nc : nat) : Prop :=
  forall k f t p b vs,
    length (fst (forward k f t p b vs)) = length vs /\
    Forall (fun row => length row = nc) (fst (forward k f t p b vs)).

(** The model returns at least one score for a batch that has a video. *)
Definition logits_nonempty : Prop :=
  forall k f t p b vs, vs <> [] -> concat (fst (forward k f t p b vs)) <> [].

(** The same relation for the runs of a call that raise. *)
Definition raising {A} (R : World -> World -> Prop) (c : Py A) : Prop :=
  forall w e w', c w = Raise e w' -> R w w'.

(** What one batch of a training epoch is to do, in the words of the
    specification, as a function of the module and of the optimizer: a
    forward pass on the videos of the batch, the loss of its logits
    against the labels of the batch, a backward pass for that loss, an
    optimizer step on the gradients, and a reset of the gradients.  The
    result is the step as seen from outside, and the module and the
    optimizer after it. *)
Definition spec_train_batch (loss_fn : Criterion) (m : Model) (o : OptState) (b : Batch)
  : Step * Model * OptState :=
  let out := forward (m_kind m) (m_frames_cnt m) (m_training m) (m_params m)
                     (m_buffers m) (fst b) in
  let loss := loss_value loss_fn (fst out) (snd b) in
  let g := loss_backward loss_fn (m_kind m) (m_frames_cnt m) (m_params m)
                         (m_buffers m) (fst b) (snd b) (m_grads m) in
  let stepped := adam_step o (m_params m) g in
  ((b, fst out, loss),
   {| m_kind := m_kind m; m_frames_cnt := m_frames_cnt m; m_training := m_training m;
      m_params := snd stepped; m_buffers := snd out; m_grads := zero_grad g |},
   fst stepped).

(** The batches of an epoch, one after the other, each on the module and
    the optimizer left by the one before. *)
Fixpoint spec_train_batches (loss_fn : Criterion) (batches : list Batch)
         (m : Model) (o : OptState) : list Step * Model * OptState :=
  match batches with
  | [] => ([], m, o)
  | b :: rest =>
      let '(s, m1, o1) := spec_train_batch loss_fn m o b in
      let '(steps, m', o') := spec_train_batches loss_fn rest m1 o1 in
      (s :: steps, m', o')
  end.

(** What one batch of a validation pass is to do, in the words of the
    specification (a no-gradient forward pass over the validation
    batches, computing the loss; no parameter update), as a function of
    the module: a forward pass on the videos of the batch and the loss of
    its logits against the labels of the batch.  The result is the step
    as seen from outside, and the module after it, of which only the
    buffers can have changed. *)
Definition spec_validate_batch (loss_fn : Criterion) (m : Model) (b : Batch)
  : Step * Model :=
  let out := forward (m_kind m) (m_frames_cnt m) (m_training m) (m_params m)
                     (m_buffers m) (fst b) in
  ((b, fst out, loss_value loss_fn (fst out) (snd b)), set_buffers (snd out) m).

(** The batches of a validation pass, one after the other, each on the
    module left by the one before. *)
Fixpoint spec_validate_batches (loss_fn : Criterion) (batches : list Batch) (m : Model)
  : list Step * Model :=
  match batches with
  | [] => ([], m)
  | b :: rest =>
      let '(s, m1) := spec_validate_batch loss_fn m b in
      let '(steps, m') := spec_validate_batches loss_fn rest m1 in
      (s :: steps, m')
  end.

End Script.

(** ** A small framework

    A concrete implementation of the interface, on which the script can
    be run: a video is a number, a model has one integer weight, and the
    logits of a video [v] under weight [p] are the two scores [0] and
    [p * v]. *)

Module Stub.

Definition stub_forward (k : ModelKind) (frames : Z) (training : bool)
           (p : Z) (b : unit) (videos : list Z) : Logits * unit :=
  (map (fun v => [of_Z 0; of_Z (p * v)]) videos, b).

Definition stub_loss (c : unit) (logits : Logits) (labels : list Z) : float :=
  of_nat (length logits).

Definition stub_adam (lr : float) : option unit :=
  if leb zero lr then Some tt else None.

#[export] Instance framework : Framework := {|
  Video := Z;
  Params := Z;
  Buffers := unit;
  Grads := Z;
  OptState := unit;
  SchedState := unit;
  Criterion := unit;
  Rng := unit;
  model_init := fun _ _ r => (0, tt, r);
  grad_init := 0;
  forward := stub_forward;
  strict_match := fun _ _ _ => true;
  CrossEntropyLoss := tt;
  loss_value := stub_loss;
  loss_backward := fun _ _ _ _ _ _ _ g => g + 1;
  Adam := stub_adam;
  adam_step := fun o p g => (o, p - g);
  zero_grad := fun _ => 0;
  ReduceLROnPlateau := tt;
  plateau_step := fun s _ o => (s, o);
  randperm := fun r n => (seq 0 n, r);
  randperm_perm := fun _ n => Permutation_refl (seq 0 n)
|}.

(** Two test videos, without labels (the sentinel [-1]). *)
Definition test_split : VideoDataset :=
  {| video_names := ["a.mp4"; "b.mp4"];
     items := [(0, -1); (1, -1)] |}.

(** Three training videos and one validation video. *)
Definition train_split : VideoDataset :=
  {| video_names := ["c.mp4"; "d.mp4"; "e.mp4"];
     items := [(2, 0); (3, 1); (4, 1)] |}.

Definition val_split : VideoDataset :=
  {| video_names := ["f.mp4"];
     items := [(5, 1)] |}.

Definition stub_disk (data : string) (split : Split) : option VideoDataset :=
  if String.eqb data "./data" then
    Some match split with
         | SplitTrain => train_split
         | SplitVal => val_split
         | SplitTest => test_split
         end
  else None.

(** A world with the given files and an empty trace. *)
Definition world (files : gmap string Node) : World :=
  {| fs := files; disk := stub_disk; cuda_available := false; rng := tt;
     frames_cnt := 16; trace := [] |}.

(** A checkpoint holding the weight [1]. *)
Definition checkpoint1 : Node :=
  {| readable := true; content := Checkpoint (1, tt) |}.

(** A world where the checkpoint is in place. *)
Definition world1 : World := world {[ "baseline_best.pth" := checkpoint1 ]}.

Definition model1 : Model :=
  {| m_kind := AvgCNNModel; m_frames_cnt := 16; m_training := true;
     m_params := 1; m_buffers := tt; m_grads := 0 |}.

(** The test loader with both videos in one batch. *)
Definition test_loader2 : DataLoader :=
  {| dataset := test_split; batch_size := 2; shuffle := false; drop_last := false |}.

(** The training loader with batches of four, more than the three
    training videos. *)
Definition short_loader : DataLoader :=
  {| dataset := train_split; batch_size := Z.to_nat 4; shuffle := true; drop_last := true |}.

(** A training of two epochs with the given batch size. *)
Definition args_batch (bs : Z) : Args :=
  {| arg_name := "baseline"; arg_data := "./data"; arg_batch_size := bs;
     arg_frames_cnt := 16; arg_model_type := "cnn-avg"; arg_epochs := 2;
     arg_learning_rate := Fin (1 # 1000); arg_gpu := false;
     arg_predict := false; arg_continue_training := false |}.

(** [--predict] with the given batch size. *)
Definition args_predict (bs : Z) : Args :=
  {| arg_name := "baseline"; arg_data := "./data"; arg_batch_size := bs;
     arg_frames_cnt := 16; arg_model_type := "cnn-avg"; arg_epochs := 5;
     arg_learning_rate := Fin (1 # 1000); arg_gpu := false;
     arg_predict := true; arg_continue_training := false |}.


(** [--continue-training] *)
Definition args_continue : Args :=
  {| arg_name := "baseline"; arg_data := "./data"; arg_batch_size := 1;
     arg_frames_cnt := 16; arg_model_type := "cnn-avg"; arg_epochs := 5;
     arg_learning_rate := Fin (1 # 1000); arg_gpu := false;
     arg_predict := false; arg_continue_training := true |}.

(** [--model-type cnn-rn] *)
Definition args_misspelt : Args :=
  {| arg_name := "baseline"; arg_data := "./data"; arg_batch_size := 1;
     arg_frames_cnt := 16; arg_model_type := "cnn-rn"; arg_epochs := 5;
     arg_learning_rate := Fin (1 # 1000); arg_gpu := false;
     arg_predict := true; arg_continue_training := false |}.

(** The test loader with one video per batch. *)
Definition test_loader1 : DataLoader :=
  {| dataset := test_split; batch_size := 1; shuffle := false; drop_last := false |}.

(** The validation loader with one video per batch. *)
Definition val_loader1 : DataLoader :=
  {| dataset := val_split; batch_size := 1; shuffle := false; drop_last := false |}.

(** A validation split without videos, and a disk that has it. *)
Definition empty_split : VideoDataset := {| video_names := []; items := [] |}.

Definition stub_disk_noval (data : string) (split : Split) : option VideoDataset :=
  if String.eqb data "./data" then
    Some match split with
         | SplitTrain => train_split
         | SplitVal => empty_split
         | SplitTest => test_split
         end
  else None.

Definition world_noval : World :=
  {| fs := ∅; disk := stub_disk_noval; cuda_available := false; rng := tt;
     frames_cnt := 16; trace := [] |}.

(** A world with the checkpoint and a file of the user. *)
Definition notes : Node := {| readable := true; content := Bytes "to do" |}.

Definition world_notes : World :=
  world (<[ "notes.txt" := notes ]> {[ "baseline_best.pth" := checkpoint1 ]}).

End Stub.

(** ** Properties *)

(** *** numpy *)

Lemma np_mean_nil : np_mean [] = NaN.
Proof. reflexivity. Qed.

Lemma argmax_scan_bound l : forall i best besti,
  (besti < i)%nat -> (argmax_scan l i best besti < i + length l)%nat.
Proof.
  induction l as [|x l IH]; intros i best besti Hb; simpl; [lia|].
  destruct (is_nan best); [lia|].
  destruct (negb (leb x best)).
  - specialize (IH (S i) x i). lia.
  - specialize (IH (S i) best besti). lia.
Qed.

(** The index returned by [argmax] is a position of the flattened array. *)
Lemma np_argmax_bound a k :
  np_argmax a = Some k -> (k < length (concat a))%nat.
Proof.
  unfold np_argmax. destruct (concat a) as [|x l]; [discriminate|].
  intros [= <-]. pose proof (argmax_scan_bound l 1 x 0). simpl. lia.
Qed.

(** On the logits of a single video the index is a class of that video. *)
Lemma np_argmax_single_row row k :
  np_argmax [row] = Some k -> (k < length row)%nat.
Proof.
  intros E. apply np_argmax_bound in E. simpl in E. now rewrite app_nil_r in E.
Qed.

Section Properties.

Context `{Framework}.

(** *** The monad *)

Lemma bind_Ok {A B} (c : Py A) (k : A -> Py B) w b w' :
  bind c k w = Ok b w' ->
  exists a w1, c w = Ok a w1 /\ k a w1 = Ok b w'.
Proof.
  unfold bind. destruct (c w) as [a w1|e w1]; [eauto | discriminate].
Qed.

Lemma bind_step {A B} (c : Py A) (k : A -> Py B) w a w1 :
  c w = Ok a w1 -> bind c k w = k a w1.
Proof. unfold bind. intros ->. reflexivity. Qed.

Lemma bind_Raise {A B} (c : Py A) (k : A -> Py B) w e w1 :
  c w = Raise e w1 -> bind c k w = Raise e w1.
Proof. unfold bind. intros ->. reflexivity. Qed.

Lemma adds_nil w : adds w w [].
Proof. unfold adds. rewrite app_nil_r. auto. Qed.

Lemma adds_trans w1 w2 w3 e1 e2 :
  adds w1 w2 e1 -> adds w2 w3 e2 -> adds w1 w3 (e1 ++ e2).
Proof.
  unfold adds. intros (T1 & F1 & D1) (T2 & F2 & D2).
  rewrite T2, T1, F2, F1, D2, D1, app_assoc. auto.
Qed.

Lemma emit_adds e w : exists w', emit e w = Ok tt w' /\ adds w w' [e].
Proof. eexists. split; [reflexivity|]. unfold adds. simpl. auto. Qed.

(** *** Loaders *)

Lemma sampler_spec loader w :
  exists idx w',
    sampler loader w = Ok idx w' /\ adds w w' [] /\
    Permutation idx (seq 0 (length (items (dataset loader)))) /\
    (shuffle loader = false -> idx = seq 0 (length (items (dataset loader)))).
Proof.
  unfold sampler. destruct (shuffle loader) eqn:S.
  - pose proof (randperm_perm (rng w) (length (items (dataset loader)))) as P.
    destruct (randperm (rng w) (length (items (dataset loader)))) as [idx r].
    exists idx, (set_rng r w). simpl in P.
    split; [reflexivity|]. split; [|split; [exact P | discriminate]].
    unfold adds. simpl. rewrite app_nil_r. auto.
  - exists (seq 0 (length (items (dataset loader)))), w.
    split; [reflexivity|]. split; [apply adds_nil|]. split; auto.
Qed.

Lemma fetch_length ds idx : (length (fetch ds idx) <= length idx)%nat.
Proof.
  unfold fetch. induction idx as [|i idx IH]; [simpl; lia|].
  change (omap (fun i => items ds !! i) (i :: idx))
    with (match items ds !! i with
          | Some y => y :: omap (fun i => items ds !! i) idx
          | None => omap (fun i => items ds !! i) idx
          end).
  destruct (items ds !! i); simpl in *; lia.
Qed.

Lemma omap_lookup_seq {A} (pre l : list A) :
  omap (fun i => (pre ++ l) !! i) (seq (length pre) (length l)) = l.
Proof.
  revert pre. induction l as [|x l IH]; intros pre; simpl; [reflexivity|].
  rewrite lookup_app_r by lia. rewrite Nat.sub_diag. simpl.
  f_equal. specialize (IH (pre ++ [x])).
  rewrite length_app in IH. simpl in IH.
  rewrite <- app_assoc in IH. simpl in IH.
  replace (S (length pre)) with (length pre + 1)%nat by lia. exact IH.
Qed.

Lemma fetch_seq ds : fetch ds (seq 0 (length (items ds))) = items ds.
Proof. unfold fetch. exact (omap_lookup_seq [] (items ds)). Qed.

Lemma iter_loader_spec loader w :
  exists idx w',
    iter_loader loader w = Ok (batches_of loader idx) w' /\ adds w w' [] /\
    Permutation idx (seq 0 (length (items (dataset loader)))) /\
    (shuffle loader = false -> idx = seq 0 (length (items (dataset loader)))).
Proof.
  destruct (sampler_spec loader w) as (idx & w' & E & A & P & S).
  exists idx, w'. unfold iter_loader. rewrite (bind_step _ _ _ _ _ E).
  repeat split; auto; apply A.
Qed.

(** *** [train] *)

Lemma model_call_spec g m videos w :
  exists w',
    model_call g m videos w =
      Ok (fst (forward (m_kind m) (m_frames_cnt m) (m_training m) (m_params m)
                       (m_buffers m) videos),
          set_buffers (snd (forward (m_kind m) (m_frames_cnt m) (m_training m)
                                    (m_params m) (m_buffers m) videos)) m) w' /\
    adds w w' [EvForward g (fst (forward (m_kind m) (m_frames_cnt m) (m_training m)
                                         (m_params m) (m_buffers m) videos))].
Proof.
  unfold model_call.
  destruct (forward (m_kind m) (m_frames_cnt m) (m_training m) (m_params m)
                    (m_buffers m) videos) as [logits b].
  eexists. split; [reflexivity|]. unfold adds. simpl. auto.
Qed.

Lemma loss_item_spec loss_fn logits labels w :
  exists w',
    loss_item loss_fn logits labels w = Ok (loss_value loss_fn logits labels) w' /\
    adds w w' [EvLoss (loss_value loss_fn logits labels)].
Proof. eexists. split; [reflexivity|]. unfold adds. simpl. auto. Qed.

Lemma backward_spec loss_fn m0 m videos labels w :
  exists w',
    backward loss_fn m0 m videos labels w =
      Ok (set_grads (loss_backward loss_fn (m_kind m0) (m_frames_cnt m0) (m_params m0)
                                   (m_buffers m0) videos labels (m_grads m)) m) w' /\
    adds w w' [EvBackward].
Proof. eexists. split; [reflexivity|]. unfold adds. simpl. auto. Qed.

Lemma optimizer_step_spec o m w :
  exists w',
    optimizer_step o m w =
      Ok (fst (adam_step o (m_params m) (m_grads m)),
          set_params (snd (adam_step o (m_params m) (m_grads m))) m) w' /\
    adds w w' [EvOptStep].
Proof.
  unfold optimizer_step. destruct (adam_step o (m_params m) (m_grads m)) as [o' p].
  eexists. split; [reflexivity|]. unfold adds. simpl. auto.
Qed.

Lemma optimizer_zero_grad_spec m w :
  exists w',
    optimizer_zero_grad m w = Ok (set_grads (zero_grad (m_grads m)) m) w' /\
    adds w w' [EvZeroGrad].
Proof. eexists. split; [reflexivity|]. unfold adds. simpl. auto. Qed.

Lemma model_train_spec m w :
  exists w', model_train m w = Ok (set_training true m) w' /\ adds w w' [EvModelTrain].
Proof. eexists. split; [reflexivity|]. unfold adds. simpl. auto. Qed.

Lemma model_eval_spec m w :
  exists w', model_eval m w = Ok (set_training false m) w' /\ adds w w' [EvModelEval].
Proof. eexists. split; [reflexivity|]. unfold adds. simpl. auto. Qed.

(** Running the next call of a sequence, given what it does. *)
Ltac step S :=
  let w' := fresh "w" in
  let E := fresh "E" in
  let A := fresh "A" in
  destruct S as (w' & E & A);
  rewrite (bind_step _ _ _ _ _ E); cbv beta iota.

Lemma train_loop_spec loss_fn batches :
  forall m o acc w,
  exists steps m' o' w',
    train_loop loss_fn batches m o acc w = Ok (acc ++ map step_loss steps, m', o') w' /\
    map step_batch steps = batches /\
    adds w w' (flat_map train_events steps) /\
    Forall (loss_of loss_fn) steps.
Proof.
  induction batches as [|[videos labels] rest IH]; intros m o acc w.
  - exists [], m, o, w. simpl. rewrite app_nil_r.
    split; [reflexivity|]. split; [reflexivity|].
    split; [apply adds_nil | constructor].
  - cbn [train_loop].
    step (model_call_spec true m videos w).
    set (fb := forward (m_kind m) (m_frames_cnt m) (m_training m) (m_params m)
                       (m_buffers m) videos) in *.
    step (loss_item_spec loss_fn (fst fb) labels w0).
    step (backward_spec loss_fn m (set_buffers (snd fb) m) videos labels w1).
    match goal with |- context [optimizer_step o ?m2] =>
      step (optimizer_step_spec o m2 w2) end.
    match goal with |- context [optimizer_zero_grad ?m3] =>
      step (optimizer_zero_grad_spec m3 w3) end.
    match goal with |- context [train_loop loss_fn rest ?m4 ?o4 ?acc4] =>
      destruct (IH m4 o4 acc4 w4) as (steps & m' & o' & w' & E' & B' & A' & L') end.
    exists ((videos, labels, fst fb, loss_value loss_fn (fst fb) labels) :: steps), m', o', w'.
    split.
    { rewrite E'. simpl. rewrite <- app_assoc. reflexivity. }
    split; [simpl; now rewrite B'|].
    split.
    { change (flat_map train_events (_ :: steps))
        with ([EvForward true (fst fb)] ++ [EvLoss (loss_value loss_fn (fst fb) labels)] ++
              [EvBackward] ++ [EvOptStep] ++ [EvZeroGrad] ++ flat_map train_events steps).
      repeat (eapply adds_trans; [eassumption|]). assumption. }
    constructor; [reflexivity | assumption].
Qed.

Lemma train_spec m loader loss_fn o w :
  exists steps m' o' w0 w1 w',
    model_train m w = Ok (set_training true m) w0 /\
    iter_loader loader w0 = Ok (map step_batch steps) w1 /\
    train m loader loss_fn o w = Ok (np_mean (map step_loss steps), m', o') w' /\
    adds w w' (EvModelTrain :: flat_map train_events steps) /\
    Forall (loss_of loss_fn) steps.
Proof.
  unfold train.
  step (model_train_spec m w).
  destruct (iter_loader_spec loader w0) as (idx & w1 & E1 & A1 & P & _).
  rewrite (bind_step _ _ _ _ _ E1); cbv beta iota.
  destruct (train_loop_spec loss_fn (batches_of loader idx) (set_training true m) o [] w1)
    as (steps & m' & o' & w' & E' & B' & A' & L').
  rewrite (bind_step _ _ _ _ _ E'); cbv beta iota.
  exists steps, m', o', w0, w1, w'.
  split; [assumption|]. split; [now rewrite B'|].
  split; [reflexivity|]. split; [|assumption].
  change (EvModelTrain :: flat_map train_events steps)
    with ([EvModelTrain] ++ [] ++ flat_map train_events steps).
  repeat (eapply adds_trans; [eassumption|]). assumption.
Qed.

(** *** [validate] *)

Lemma same_weights_refl m : same_weights m m.
Proof. unfold same_weights. auto. Qed.

Lemma same_weights_trans m1 m2 m3 :
  same_weights m1 m2 -> same_weights m2 m3 -> same_weights m1 m3.
Proof.
  unfold same_weights. intros (P1 & G1 & K1 & F1) (P2 & G2 & K2 & F2).
  rewrite P2, G2, K2, F2. auto.
Qed.

Lemma same_weights_buffers b m : same_weights m (set_buffers b m).
Proof. unfold same_weights. simpl. auto. Qed.

Lemma same_weights_training b m : same_weights m (set_training b m).
Proof. unfold same_weights. simpl. auto. Qed.

Lemma validate_loop_spec loss_fn batches :
  forall m acc w,
  exists steps m' w',
    validate_loop loss_fn batches m acc w = Ok (acc ++ map step_loss steps, m') w' /\
    map step_batch steps = batches /\
    adds w w' (flat_map validate_events steps) /\
    Forall (loss_of loss_fn) steps /\
    same_weights m m'.
Proof.
  induction batches as [|[videos labels] rest IH]; intros m acc w.
  - exists [], m, w. simpl. rewrite app_nil_r.
    split; [reflexivity|]. split; [reflexivity|].
    split; [apply adds_nil|]. split; [constructor | apply same_weights_refl].
  - cbn [validate_loop].
    step (model_call_spec false m videos w).
    set (fb := forward (m_kind m) (m_frames_cnt m) (m_training m) (m_params m)
                       (m_buffers m) videos) in *.
    step (loss_item_spec loss_fn (fst fb) labels w0).
    match goal with |- context [validate_loop loss_fn rest ?m1 ?acc1] =>
      destruct (IH m1 acc1 w1) as (steps & m' & w' & E' & B' & A' & L' & S') end.
    exists ((videos, labels, fst fb, loss_value loss_fn (fst fb) labels) :: steps), m', w'.
    split.
    { rewrite E'. simpl. rewrite <- app_assoc. reflexivity. }
    split; [simpl; now rewrite B'|].
    split.
    { change (flat_map validate_events (_ :: steps))
        with ([EvForward false (fst fb)] ++ [EvLoss (loss_value loss_fn (fst fb) labels)] ++
              flat_map validate_events steps).
      repeat (eapply adds_trans; [eassumption|]). assumption. }
    split; [constructor; [reflexivity | assumption]|].
    eapply same_weights_trans; [apply same_weights_buffers | exact S'].
Qed.

Lemma validate_spec m loader loss_fn w :
  exists steps m' w0 w1 w',
    model_eval m w = Ok (set_training false m) w0 /\
    iter_loader loader w0 = Ok (map step_batch steps) w1 /\
    validate m loader loss_fn w = Ok (np_mean (map step_loss steps), m') w' /\
    adds w w' (EvModelEval :: flat_map validate_events steps) /\
    Forall (loss_of loss_fn) steps /\
    same_weights m m'.
Proof.
  unfold validate.
  step (model_eval_spec m w).
  destruct (iter_loader_spec loader w0) as (idx & w1 & E1 & A1 & _ & S).
  rewrite (bind_step _ _ _ _ _ E1); cbv beta iota.
  destruct (validate_loop_spec loss_fn (batches_of loader idx) (set_training false m) [] w1)
    as (steps & m' & w' & E' & B' & A' & L' & S').
  rewrite (bind_step _ _ _ _ _ E'); cbv beta iota.
  exists steps, m', w0, w1, w'.
  split; [assumption|]. split; [now rewrite B'|].
  split; [reflexivity|].
  split; [|split; [assumption|]].
  - change (EvModelEval :: flat_map validate_events steps)
      with ([EvModelEval] ++ [] ++ flat_map validate_events steps).
    repeat (eapply adds_trans; [eassumption|]). assumption.
  - eapply same_weights_trans; [apply same_weights_training | exact S'].
Qed.

(** *** Batches *)



(** Without [drop_last], the batches are the list cut in pieces. *)
Lemma batch_sampler_keep {A} (bs : nat) (l : list A) :
  forall batch,
    (length batch < bs)%nat ->
    concat (batch_sampler bs false l batch) = batch ++ l /\
    full_but_last bs (batch_sampler bs false l batch).
Proof.
  induction l as [|x l IH]; intros batch Hb.
  - simpl. destruct batch as [|y batch]; simpl.
    + auto.
    + rewrite app_nil_r. split; [reflexivity|]. simpl in Hb. lia.
  - cbn [batch_sampler].
    destruct (Nat.eqb_spec (length (batch ++ [x])) bs) as [E|NE].
    + destruct (IH []) as (C & F); [simpl; lia|].
      split.
      * simpl. rewrite C. simpl. now rewrite <- app_assoc.
      * simpl. destruct (batch_sampler bs false l []) eqn:R.
        -- rewrite E. split; [|lia]. rewrite length_app in E. simpl in E. lia.
        -- split; assumption.
    + rewrite length_app in NE. simpl in NE.
      destruct (IH (batch ++ [x])) as (C & F).
      { rewrite length_app. simpl. lia. }
      split; [|assumption]. rewrite C. now rewrite <- app_assoc.
Qed.

Lemma new_DataLoader_Ok ds bs sh dl w loader w' :
  new_DataLoader ds bs sh dl w = Ok loader w' ->
  (0 < bs)%Z /\ w' = w /\
  loader = {| dataset := ds; batch_size := Z.to_nat bs; shuffle := sh; drop_last := dl |}.
Proof.
  unfold new_DataLoader. destruct (Z.leb_spec bs 0); [discriminate|].
  unfold ret. intros [= <- <-]. auto.
Qed.



(** The loop of [train] does, batch after batch, what the specification
    says of a batch, on the module and the optimizer as they are by then. *)
Lemma train_loop_exact loss_fn batches :
  forall m o acc w,
  exists w',
    train_loop loss_fn batches m o acc w
    = Ok (acc ++ map step_loss (fst (fst (spec_train_batches loss_fn batches m o))),
          snd (fst (spec_train_batches loss_fn batches m o)),
          snd (spec_train_batches loss_fn batches m o)) w' /\
    map step_batch (fst (fst (spec_train_batches loss_fn batches m o))) = batches /\
    adds w w' (flat_map train_events (fst (fst (spec_train_batches loss_fn batches m o)))) /\
    Forall (loss_of loss_fn) (fst (fst (spec_train_batches loss_fn batches m o))).
Proof.
  induction batches as [|[videos labels] rest IH]; intros m o acc w.
  - exists w. simpl. rewrite app_nil_r.
    split; [reflexivity|]. split; [reflexivity|].
    split; [apply adds_nil | constructor].
  - cbn [train_loop].
    step (model_call_spec true m videos w).
    set (fb := forward (m_kind m) (m_frames_cnt m) (m_training m) (m_params m)
                       (m_buffers m) videos) in *.
    step (loss_item_spec loss_fn (fst fb) labels w0).
    step (backward_spec loss_fn m (set_buffers (snd fb) m) videos labels w1).
    match goal with |- context [optimizer_step o ?m2] =>
      step (optimizer_step_spec o m2 w2) end.
    match goal with |- context [optimizer_zero_grad ?m3] =>
      step (optimizer_zero_grad_spec m3 w3) end.
    match goal with |- context [train_loop loss_fn rest ?m4 ?o4 ?acc4] =>
      assert (Em : m4 = snd (fst (spec_train_batch loss_fn m o (videos, labels))))
        by reflexivity;
      assert (Eo : o4 = snd (spec_train_batch loss_fn m o (videos, labels)))
        by reflexivity;
      rewrite Em, Eo;
      destruct (IH (snd (fst (spec_train_batch loss_fn m o (videos, labels))))
                   (snd (spec_train_batch loss_fn m o (videos, labels)))
                   acc4 w4) as (w' & E' & B' & A' & L')
    end.
    cbn [spec_train_batches].
    destruct (spec_train_batch loss_fn m o (videos, labels)) as [[s0 m1] o1] eqn:S0.
    assert (Es : s0 = (videos, labels, fst fb, loss_value loss_fn (fst fb) labels)).
    { unfold spec_train_batch in S0. injection S0 as <- _ _. reflexivity. }
    simpl fst in *. simpl snd in *.
    destruct (spec_train_batches loss_fn rest m1 o1) as [[steps m'] o'].
    simpl fst in *. simpl snd in *.
    exists w'. split.
    { rewrite E'. rewrite Es. simpl. rewrite <- app_assoc. reflexivity. }
    split; [rewrite Es; simpl; now rewrite B'|].
    split.
    { rewrite Es.
      change (flat_map train_events (_ :: steps))
        with ([EvForward true (fst fb)] ++ [EvLoss (loss_value loss_fn (fst fb) labels)] ++
              [EvBackward] ++ [EvOptStep] ++ [EvZeroGrad] ++ flat_map train_events steps).
      repeat (eapply adds_trans; [eassumption|]). assumption. }
    constructor; [rewrite Es; reflexivity | assumption].
Qed.

(** C5: for every batch of a training epoch, [train] makes, in this
    order, a forward pass, the computation of the loss of the logits
    against the labels of the batch (the criterion is the one passed by
    [main], cross-entropy), a backward pass, an optimizer step and a
    reset of the gradients, each on the module and the optimizer as the
    batches before have left them; it returns the mean of the per-batch
    losses of the epoch. *)
Theorem train_order_and_mean m loader loss_fn o w :
  exists steps m' o' w0 w1 w',
    model_train m w = Ok (set_training true m) w0 /\
    iter_loader loader w0 = Ok (map step_batch steps) w1 /\
    spec_train_batches loss_fn (map step_batch steps) (set_training true m) o
    = (steps, m', o') /\
    train m loader loss_fn o w = Ok (np_mean (map step_loss steps), m', o') w' /\
    trace w' = trace w ++ EvModelTrain :: flat_map train_events steps /\
    Forall (loss_of loss_fn) steps.
Proof.
  unfold train.
  destruct (model_train_spec m w) as (w0 & E0 & A0).
  rewrite (bind_step _ _ _ _ _ E0); cbv beta iota.
  destruct (iter_loader_spec loader w0) as (idx & w1 & E1 & A1 & _).
  rewrite (bind_step _ _ _ _ _ E1); cbv beta iota.
  destruct (train_loop_exact loss_fn (batches_of loader idx) (set_training true m) o [] w1)
    as (w' & E' & B' & A' & L').
  rewrite (bind_step _ _ _ _ _ E'); cbv beta iota.
  destruct (spec_train_batches loss_fn (batches_of loader idx) (set_training true m) o)
    as [[steps m'] o'] eqn:S.
  simpl fst in *. simpl snd in *.
  exists steps, m', o', w0, w1, w'.
  split; [exact E0|]. split; [now rewrite B'|]. split; [now rewrite B'|].
  split; [reflexivity|]. split; [|exact L'].
  pose proof (adds_trans _ _ _ _ _ A0 (adds_trans _ _ _ _ _ A1 A')) as (T & _).
  exact T.
Qed.

Lemma validate_events_no_step steps :
  ~ In EvOptStep (flat_map validate_events steps).
Proof.
  induction steps as [|s steps IH]; simpl; [tauto|].
  intros [X|[X|X]]; try discriminate. now apply IH.
Qed.

(** C6: [validate] leaves the parameters of the model as they are: its
    forward passes run under [torch.no_grad()], it makes no optimizer
    step, and it returns the mean of the per-batch validation losses. *)
Theorem validate_keeps_parameters m loader loss_fn w :
  exists steps m' w0 w1 w',
    model_eval m w = Ok (set_training false m) w0 /\
    iter_loader loader w0 = Ok (map step_batch steps) w1 /\
    validate m loader loss_fn w = Ok (np_mean (map step_loss steps), m') w' /\
    m_params m' = m_params m /\
    trace w' = trace w ++ EvModelEval :: flat_map validate_events steps /\
    ~ In EvOptStep (EvModelEval :: flat_map validate_events steps) /\
    Forall (loss_of loss_fn) steps.
Proof.
  destruct (validate_spec m loader loss_fn w)
    as (steps & m' & w0 & w1 & w' & E0 & E1 & E & A & L & S).
  exists steps, m', w0, w1, w'.
  split; [exact E0|]. split; [exact E1|]. split; [exact E|].
  split; [apply S|]. split; [apply A|]. split; [|exact L].
  intros [X|X]; [discriminate|]. now apply validate_events_no_step in X.
Qed.

(** *** The epochs *)

Lemma train_events_no_save steps : List.filter is_save (flat_map train_events steps) = [].
Proof. induction steps as [|s steps IH]; [reflexivity | exact IH]. Qed.

Lemma validate_events_no_save steps : List.filter is_save (flat_map validate_events steps) = [].
Proof. induction steps as [|s steps IH]; [reflexivity | exact IH]. Qed.

Lemma scheduler_step_spec s v o w :
  exists w', scheduler_step s v o w = Ok (plateau_step s v o) w' /\
             adds w w' [EvSchedStep v].
Proof. eexists. split; [reflexivity|]. unfold adds. simpl. auto. Qed.

Lemma torch_save_spec sd path w :
  exists w', torch_save sd path w = Ok tt w' /\
             trace w' = trace w ++ [EvSave path] /\
             fs w' = <[path := written (fs w) path (Checkpoint sd)]> (fs w) /\
             disk w' = disk w.
Proof. eexists. split; [reflexivity|]. simpl. auto. Qed.

Lemma epoch_body_spec args tdl vdl crit epoch m o s best w :
  exists train_loss val_loss m1 o1 m2 w1 w2 pre w',
    train m tdl crit o w = Ok (train_loss, m1, o1) w1 /\
    validate m1 vdl crit w1 = Ok (val_loss, m2) w2 /\
    adds w w2 pre /\ List.filter is_save pre = [] /\
    epoch_body args tdl vdl crit epoch (m, o, s, best) w
    = Ok (m2, snd (plateau_step s val_loss o1), fst (plateau_step s val_loss o1),
          if ltb val_loss best then val_loss else best) w' /\
    trace w' = trace w2 ++ [EvSchedStep val_loss; EvPrintEpoch epoch train_loss val_loss]
                        ++ (if ltb val_loss best then [EvSave (best_path args)] else []) /\
    disk w' = disk w /\
    fs w' = (if ltb val_loss best
             then <[best_path args := written (fs w) (best_path args) (Checkpoint (state_dict m2))]> (fs w)
             else fs w).
Proof.
  destruct (train_spec m tdl crit o w)
    as (tsteps & m1 & o1 & _ & _ & w1 & _ & _ & E1 & A1 & _).
  destruct (validate_spec m1 vdl crit w1)
    as (vsteps & m2 & _ & _ & w2 & _ & _ & E2 & A2 & _).
  set (train_loss := np_mean (map step_loss tsteps)) in *.
  set (val_loss := np_mean (map step_loss vsteps)) in *.
  pose proof (adds_trans _ _ _ _ _ A1 A2) as A12.
  assert (NS : List.filter is_save ((EvModelTrain :: flat_map train_events tsteps) ++
                               EvModelEval :: flat_map validate_events vsteps) = []).
  { rewrite List.filter_app. simpl.
    rewrite train_events_no_save, validate_events_no_save. reflexivity. }
  unfold epoch_body.
  rewrite (bind_step _ _ _ _ _ E1); cbv beta iota.
  rewrite (bind_step _ _ _ _ _ E2); cbv beta iota.
  destruct (scheduler_step_spec s val_loss o1 w2) as (w3 & E3 & A3).
  rewrite (bind_step _ _ _ _ _ E3).
  destruct (plateau_step s val_loss o1) as [s' o2] eqn:PS; cbv beta iota.
  destruct (emit_adds (EvPrintEpoch epoch train_loss val_loss) w3) as (w4 & E4 & A4).
  rewrite (bind_step _ _ _ _ _ E4); cbv beta iota.
  pose proof (adds_trans _ _ _ _ _ A3 A4) as A34. simpl in A34.
  pose proof A12 as (_ & F12 & D12). destruct A34 as (T34 & F34 & D34).
  destruct (ltb val_loss best) eqn:LT.
  - destruct (torch_save_spec (state_dict m2) (best_path args) w4) as (w5 & E5 & T5 & F5 & D5).
    rewrite (bind_step _ _ _ _ _ E5). unfold ret. simpl.
    exists train_loss, val_loss, m1, o1, m2, w1, w2. eexists. exists w5. rewrite PS, LT. simpl.
    split; [exact E1|]. split; [exact E2|]. split; [exact A12|]. split; [exact NS|].
    split; [reflexivity|]. split; [|split].
    + rewrite T5, T34, <- app_assoc. reflexivity.
    + congruence.
    + rewrite F5, F34, F12. reflexivity.
  - unfold ret. simpl.
    exists train_loss, val_loss, m1, o1, m2, w1, w2. eexists. exists w4. rewrite PS, LT. simpl.
    split; [exact E1|]. split; [exact E2|]. split; [exact A12|]. split; [exact NS|].
    split; [reflexivity|]. split; [|split].
    + rewrite T34. simpl. first [rewrite app_nil_r; reflexivity | reflexivity].
    + congruence.
    + congruence.
Qed.

Lemma has_checkpoint_written f path sd :
  has_checkpoint (<[path := written f path (Checkpoint sd)]> f) path.
Proof.
  exists (written f path (Checkpoint sd)), sd.
  split; [apply lookup_insert_eq | reflexivity].
Qed.

Lemma ltb_finite_inf v : is_finite v = true -> ltb v np_inf = true.
Proof. destruct v; simpl; congruence. Qed.

Lemma epochs_loop_spec args tdl vdl crit n :
  forall epoch t w,
  exists t' w' evs,
    epochs_loop args tdl vdl crit n epoch t w = Ok t' w' /\
    trace w' = trace w ++ evs /\
    disk w' = disk w /\
    (has_checkpoint (fs w) (best_path args) -> has_checkpoint (fs w') (best_path args)) /\
    ((0 < n)%nat -> snd t = np_inf -> Forall sched_finite evs ->
     has_checkpoint (fs w') (best_path args)).
Proof.
  induction n as [|n IH]; intros epoch t w.
  - exists t, w, []. simpl. rewrite app_nil_r.
    split; [reflexivity|]. split; [reflexivity|]. split; [reflexivity|].
    split; [auto | lia].
  - destruct t as [[[m o] s] best]. cbn [epochs_loop].
    destruct (epoch_body_spec args tdl vdl crit epoch m o s best w)
      as (train_loss & val_loss & m1 & o1 & m2 & w1 & w2 & pre & w3 &
          _ & _ & A & _ & E & T & D & F).
    rewrite (bind_step _ _ _ _ _ E).
    match goal with |- context [epochs_loop _ _ _ _ n (S epoch) ?t1 w3] =>
      destruct (IH (S epoch) t1 w3) as (t' & w' & evs & E' & T' & D' & K' & _) end.
    exists t', w'.
    exists (pre ++ [EvSchedStep val_loss; EvPrintEpoch epoch train_loss val_loss]
                ++ (if ltb val_loss best then [EvSave (best_path args)] else []) ++ evs).
    split; [exact E'|]. split.
    { rewrite T', T. destruct A as (-> & _). now rewrite <- !app_assoc. }
    split; [congruence|]. split.
    + intros K. apply K'. rewrite F. destruct (ltb val_loss best); [|exact K].
      apply has_checkpoint_written.
    + intros _ B Fin. simpl in B. subst best. apply K'. rewrite F.
      apply Forall_app in Fin as (_ & Fin).
      apply Forall_inv in Fin. simpl in Fin.
      rewrite (ltb_finite_inf _ Fin). apply has_checkpoint_written.
Qed.

Lemma emit_Ok e w u w' : emit e w = Ok u w' -> adds w w' [e].
Proof. destruct (emit_adds e w) as (w0 & E & A). rewrite E. now intros [= _ <-]. Qed.

Lemma new_VideoDataset_Ok data split w ds w' :
  new_VideoDataset data split w = Ok ds w' -> w' = w /\ disk w data split = Some ds.
Proof.
  unfold new_VideoDataset. destruct (disk w data split); [|discriminate].
  now intros [= <- <-].
Qed.

Lemma lift_option_Ok {A} e (o : option A) (w : World) a w' :
  lift_option e o w = Ok a w' -> o = Some a /\ w' = w.
Proof. destruct o; simpl; [|discriminate]. unfold ret. now intros [= <- <-]. Qed.

(** What the training branch leaves, when it ends: the events of the
    epochs after the two messages, and the checkpoint if the first epoch
    wrote it. *)
Lemma training_spec args m w m' w' :
  training args m w = Ok m' w' ->
  exists evs,
    trace w' = trace w ++ EvPrint "Reading data..." :: EvPrint "Ready for training..." :: evs /\
    disk w' = disk w /\
    (has_checkpoint (fs w) (best_path args) -> has_checkpoint (fs w') (best_path args)) /\
    ((0 < arg_epochs args)%Z -> Forall sched_finite evs ->
     has_checkpoint (fs w') (best_path args)).
Proof.
  unfold training. intros E.
  apply bind_Ok in E as (u1 & w1 & E1 & E). apply emit_Ok in E1 as (T1 & F1 & D1).
  apply bind_Ok in E as (tds & w2 & E2 & E). apply new_VideoDataset_Ok in E2 as (-> & _).
  apply bind_Ok in E as (tdl & w2 & E2 & E). apply new_DataLoader_Ok in E2 as (_ & -> & _).
  apply bind_Ok in E as (vds & w2 & E2 & E). apply new_VideoDataset_Ok in E2 as (-> & _).
  apply bind_Ok in E as (vdl & w2 & E2 & E). apply new_DataLoader_Ok in E2 as (_ & -> & _).
  apply bind_Ok in E as (opt & w2 & E2 & E). apply lift_option_Ok in E2 as (_ & ->).
  apply bind_Ok in E as (u2 & w2 & E2 & E). apply emit_Ok in E2 as (T2 & F2 & D2).
  apply bind_Ok in E as (t' & w3 & E3 & E).
  destruct (epochs_loop_spec args tdl vdl CrossEntropyLoss (Z.to_nat (arg_epochs args)) 0%nat
                             (m, opt, ReduceLROnPlateau, np_inf) w2)
    as (t'' & w3' & evs & E3' & T3 & D3 & K3 & B3).
  rewrite E3 in E3'. injection E3' as <- <-.
  destruct t' as [[[m3 o3] s3] b3]. unfold ret in E. injection E as <- <-.
  exists evs. split; [|split; [|split]].
  - rewrite T3, T2, T1, <- !app_assoc. reflexivity.
  - congruence.
  - intros K. apply K3. now rewrite F2, F1.
  - intros Hep Fin. apply B3; [lia | reflexivity | exact Fin].
Qed.

(** *** [predict] *)

Lemma slice_assign_exact arr start stop k v :
  (start + k = Nat.min stop (length arr))%nat ->
  length v = k ->
  slice_assign arr start stop v = Some (firstn start arr ++ v ++ skipn (start + k) arr).
Proof.
  intros Hk Hv. unfold slice_assign.
  replace (Nat.min start (length arr)) with start by lia.
  replace (Nat.max start (Nat.min stop (length arr))) with (start + k)%nat by lia.
  replace (start + k - start)%nat with k by lia.
  rewrite Hv, Nat.eqb_refl. reflexivity.
Qed.

Lemma slice_assign_broadcast arr start stop k x :
  (start + k = Nat.min stop (length arr))%nat ->
  slice_assign arr start stop [x]
  = Some (firstn start arr ++ repeat x k ++ skipn (start + k) arr).
Proof.
  intros Hk. unfold slice_assign.
  replace (Nat.min start (length arr)) with start by lia.
  replace (Nat.max start (Nat.min stop (length arr))) with (start + k)%nat by lia.
  replace (start + k - start)%nat with k by lia.
  simpl length. destruct (Nat.eqb_spec 1 k) as [<-|_]; reflexivity.
Qed.

Lemma length_patch {A} (arr v : list A) start k :
  (start + k <= length arr)%nat -> length v = k ->
  length (firstn start arr ++ v ++ skipn (start + k) arr) = length arr.
Proof.
  intros Hk Hv. rewrite !length_app, length_firstn, length_skipn. lia.
Qed.

Lemma model_call_Ok g m videos w logits m' w' :
  model_call g m videos w = Ok (logits, m') w' ->
  adds w w' [EvForward g logits] /\ same_weights m m'.
Proof.
  destruct (model_call_spec g m videos w) as (w0 & E & A). rewrite E.
  intros [= <- <- <-]. split; [exact A | apply same_weights_buffers].
Qed.

(** The labels written by the loop of [predict] are those of the samples,
    in the order of the batches; the array of predictions keeps its
    length. *)
Lemma predict_loop_spec bs chunks :
  forall i m predictions labels w predictions' labels' m' w',
    full_but_last bs chunks ->
    length predictions = length labels ->
    length labels = (i * bs + length (concat chunks))%nat ->
    predict_loop bs (map collate_fn chunks) i m predictions labels w
    = Ok (predictions', labels', m') w' ->
    labels' = firstn (i * bs) labels ++ map (fun x => of_Z (snd x)) (concat chunks) /\
    length predictions' = length predictions /\
    same_weights m m' /\
    exists evs, adds w w' evs.
Proof.
  induction chunks as [|c rest IH];
    intros i m predictions labels w predictions' labels' m' w' Full Len N E.
  - simpl in *. unfold ret in E. injection E as <- <- <- <-.
    rewrite app_nil_r, firstn_all2 by lia.
    split; [reflexivity|]. split; [reflexivity|].
    split; [apply same_weights_refl|]. exists []. apply adds_nil.
  - cbn [map predict_loop collate_fn] in E.
    apply bind_Ok in E as ([logits m1] & w1 & E1 & E).
    apply model_call_Ok in E1 as (A1 & S1).
    apply bind_Ok in E as (prediction & w2 & E2 & E).
    apply lift_option_Ok in E2 as (_ & ->).
    apply bind_Ok in E as (predictions1 & w2 & E2 & E).
    apply lift_option_Ok in E2 as (P1 & ->).
    apply bind_Ok in E as (labels1 & w2 & E2 & E).
    apply lift_option_Ok in E2 as (L1 & ->).
    simpl concat in N. rewrite length_app in N.
    assert (K : (i * bs + length c = Nat.min ((i + 1) * bs) (length labels))%nat).
    { destruct rest; simpl in Full; [simpl in N|]; lia. }
    rewrite (slice_assign_exact _ _ _ (length c)) in L1
      by (rewrite ?length_map; first [exact K | reflexivity]).
    rewrite (slice_assign_broadcast _ _ _ (length c)) in P1 by (rewrite Len; exact K).
    injection L1 as <-. injection P1 as <-.
    destruct rest as [|c' rest].
    + simpl in E. unfold ret in E. injection E as <- <- <- <-.
      simpl in N. simpl concat. rewrite app_nil_r.
      rewrite skipn_all2 by lia. rewrite app_nil_r.
      split; [now rewrite map_map|].
      split; [apply length_patch; [lia | apply repeat_length]|].
      split; [exact S1|]. eexists. exact A1.
    + destruct Full as (Hc & Full).
      apply IH in E as (EL & EP & S2 & evs & A2).
      * split.
        { assert (TK : firstn (S i * bs)
                         (firstn (i * bs) labels ++ map of_Z (map snd c)
                          ++ skipn (i * bs + length c) labels)
                       = firstn (i * bs) labels ++ map (fun x => of_Z (snd x)) c).
          { replace (S i * bs)%nat with (length (firstn (i * bs) labels) + length c)%nat
              by (rewrite length_firstn; lia).
            rewrite firstn_app_2. f_equal.
            rewrite firstn_app, firstn_all2 by (rewrite !length_map; lia).
            rewrite !length_map, Nat.sub_diag. simpl. rewrite app_nil_r.
            now rewrite map_map. }
          rewrite EL, TK.
          change (concat (c :: c' :: rest)) with (c ++ concat (c' :: rest)).
          now rewrite map_app, app_assoc. }
        split.
        { rewrite EP. apply length_patch; [lia | apply repeat_length]. }
        split; [exact (same_weights_trans _ _ _ S1 S2)|].
        eexists. exact (adds_trans _ _ _ _ _ A1 A2).
      * exact Full.
      * rewrite !length_patch; first [lia | rewrite ?length_map; reflexivity | apply repeat_length].
      * rewrite length_patch by (rewrite ?length_map; lia).
        change (concat (c' :: rest)) with (c' ++ concat rest) in *.
        lia.
Qed.

Lemma predict_Ok m loader w predictions labels m' w' :
  sequential loader ->
  predict m loader w = Ok (predictions, labels, m') w' ->
  labels = map (fun x => of_Z (snd x)) (items (dataset loader)) /\
  length predictions = length (items (dataset loader)) /\
  same_weights m m' /\
  exists evs, adds w w' (EvModelEval :: evs).
Proof.
  intros (Sh & Dl & Hbs) E. unfold predict in E.
  apply bind_Ok in E as (m0 & w0 & E0 & E).
  destruct (model_eval_spec m w) as (w0' & E0' & A0).
  rewrite E0 in E0'. injection E0' as -> <-.
  apply bind_Ok in E as (batches & w1 & E1 & E).
  destruct (iter_loader_spec loader w0) as (idx & w1' & E1' & A1 & _ & Seq).
  rewrite E1 in E1'. injection E1' as -> <-.
  rewrite (Seq Sh) in E. unfold batches_of in E. rewrite fetch_seq, Dl in E.
  destruct (batch_sampler_keep (batch_size loader) (items (dataset loader)) [])
    as (C & Full); [simpl; lia|].
  apply predict_loop_spec in E as (EL & EP & S & evs & A2).
  - rewrite C in EL. simpl in EL.
    split; [exact EL|]. split.
    + rewrite EP. apply repeat_length.
    + split; [exact (same_weights_trans _ _ _ (same_weights_training false m) S)|].
      exists evs. change (EvModelEval :: evs) with ([EvModelEval] ++ [] ++ evs).
      exact (adds_trans _ _ _ _ _ A0 (adds_trans _ _ _ _ _ A1 A2)).
  - exact Full.
  - reflexivity.
  - rewrite C. simpl. unfold np_zeros. now rewrite repeat_length.
Qed.

(** *** [main] *)

Lemma create_model_spec args w :
  exists m w',
    create_model args w = Ok m w' /\
    m_kind m = (if String.eqb (arg_model_type args) "cnn-rnn"
                then CNNtoRNNModel else AvgCNNModel) /\
    m_frames_cnt m = arg_frames_cnt args /\
    adds w w' [EvPrint "Creating model...";
               EvNewModel (m_kind m) (arg_frames_cnt args)].
Proof.
  unfold create_model.
  destruct (emit_adds (EvPrint "Creating model...") w) as (w0 & E0 & (T0 & F0 & D0)).
  rewrite (bind_step _ _ _ _ _ E0).
  destruct (String.eqb (arg_model_type args) "cnn-rnn"); unfold new_model, bind;
    destruct (model_init _ (arg_frames_cnt args) (rng w0)) as [[p b] r]; simpl;
    (eexists; eexists; split; [reflexivity|]; simpl;
     split; [reflexivity|]; split; [reflexivity|];
     unfold adds; simpl; rewrite T0, <- app_assoc; auto).
Qed.

Lemma load_best_Ok args m w m' w' :
  load_best args m w = Ok m' w' ->
  exists nd sd,
    fs w !! best_path args = Some nd /\ readable nd = true /\
    content nd = Checkpoint sd /\
    strict_match (m_kind m) (m_frames_cnt m) sd = true /\
    m' = set_buffers (snd sd) (set_params (fst sd) m) /\
    adds w w' [EvLoadStateDict (best_path args)].
Proof.
  unfold load_best. intros E.
  apply bind_Ok in E as (fp & w1 & E1 & E).
  unfold open_rb in E1.
  destruct (fs w !! best_path args) as [nd|] eqn:L; [|discriminate].
  destruct (readable nd) eqn:R; [|discriminate].
  injection E1 as <- <-.
  apply bind_Ok in E as (sd & w1 & E1 & E).
  destruct (content nd) as [sd'| |] eqn:C; simpl in E1; try discriminate.
  unfold ret in E1. injection E1 as <- <-.
  apply bind_Ok in E as (m1 & w1 & E1 & E).
  unfold load_state_dict in E1.
  destruct (strict_match (m_kind m) (m_frames_cnt m) sd') eqn:SM; [|discriminate].
  unfold ret in E1. injection E1 as <- <-.
  apply bind_Ok in E as (u & w1 & E1 & E). apply emit_Ok in E1.
  unfold ret in E. injection E as <- <-.
  exists nd, sd'. auto 10.
Qed.

Lemma load_best_unavailable args m w :
  fs w !! best_path args = None \/
  (exists nd, fs w !! best_path args = Some nd /\ readable nd = false) ->
  exists e, load_best args m w = Raise e w /\ is_OSError e = true.
Proof.
  intros [L|(nd & L & R)]; unfold load_best, bind, open_rb; rewrite L.
  - exists FileNotFoundError. auto.
  - rewrite R. exists PermissionError. auto.
Qed.

Lemma model_to_Ok args m w m' w' : model_to args m w = Ok m' w' -> m' = m /\ w' = w.
Proof.
  unfold model_to. destruct (arg_gpu args && negb (cuda_available w)); [discriminate|].
  now intros [= <- <-].
Qed.

Lemma set_frames_cnt_Ok n w u w' :
  set_frames_cnt n w = Ok u w' -> adds w w' [EvSetFramesCnt n].
Proof. unfold set_frames_cnt, emit. intros [= _ <-]. unfold adds. simpl. auto. Qed.

(** What [prepare] leaves when it ends: the test loader is sequential
    over the test split found on disk. *)
Lemma prepare_Ok args w m ds loader w1 :
  prepare args w = Ok (m, ds, loader) w1 ->
  disk w (arg_data args) SplitTest = Some ds /\
  dataset loader = ds /\ sequential loader /\
  batch_size loader = Z.to_nat (arg_batch_size args) /\
  exists evs, trace w1 = trace w ++ evs.
Proof.
  unfold prepare. intros E.
  apply bind_Ok in E as (m0 & w0 & E0 & E).
  destruct (create_model_spec args w) as (m0' & w0' & E0' & _ & _ & (T0 & _ & D0)).
  rewrite E0 in E0'. injection E0' as <- <-.
  apply bind_Ok in E as (m2 & w2 & E2 & E).
  assert (X2 : disk w2 = disk w0 /\ exists evs, trace w2 = trace w0 ++ evs).
  { destruct (arg_continue_training args).
    - apply load_best_Ok in E2 as (? & ? & _ & _ & _ & _ & _ & (T & _ & D)). eauto.
    - unfold ret in E2. injection E2 as <- <-. split; [reflexivity|].
      exists []. now rewrite app_nil_r. }
  destruct X2 as (D2 & evs2 & T2).
  apply bind_Ok in E as (m3 & w3 & E3 & E). apply model_to_Ok in E3 as (-> & ->).
  apply bind_Ok in E as (u & w4 & E4 & E). apply set_frames_cnt_Ok in E4 as (T4 & _ & D4).
  apply bind_Ok in E as (m5 & w5 & E5 & E).
  assert (X5 : disk w5 = disk w4 /\ exists evs, trace w5 = trace w4 ++ evs).
  { destruct (negb (arg_predict args)).
    - apply training_spec in E5 as (evs & T & D & _). eauto.
    - unfold ret in E5. injection E5 as <- <-. split; [reflexivity|].
      exists []. now rewrite app_nil_r. }
  destruct X5 as (D5 & evs5 & T5).
  apply bind_Ok in E as (ds' & w6 & E6 & E). apply new_VideoDataset_Ok in E6 as (-> & Dk).
  apply bind_Ok in E as (ld & w6 & E6 & E). apply new_DataLoader_Ok in E6 as (Hbs & -> & ->).
  unfold ret in E. injection E as <- <- <- <-.
  split; [congruence|]. split; [reflexivity|].
  split; [unfold sequential; simpl; repeat split; lia|].
  split; [reflexivity|].
  eexists. rewrite T5, T4, T2, T0, <- !app_assoc. reflexivity.
Qed.

Lemma lookup_map {A B} (f : A -> B) (l : list A) i :
  map f l !! i = option_map f (l !! i).
Proof. revert i. induction l as [|x l IH]; intros [|i]; simpl; auto. Qed.

Lemma new_DataFrame_Ok3 n1 c1 n2 c2 n3 c3 (w : World) df w' :
  new_DataFrame [(n1, c1); (n2, c2); (n3, c3)] w = Ok df w' ->
  df = [(n1, c1); (n2, c2); (n3, c3)] /\ w' = w /\
  length c2 = length c1 /\ length c3 = length c1.
Proof.
  unfold new_DataFrame. simpl.
  destruct (Nat.eqb_spec (length c2) (length c1)); [|discriminate].
  destruct (Nat.eqb_spec (length c3) (length c1)); [|discriminate].
  simpl. unfold ret. intros [= <- <-]. auto.
Qed.

Lemma df_rows_length3 n1 c1 n2 c2 n3 c3 :
  length (df_rows [(n1, c1); (n2, c2); (n3, c3)]) = length c1.
Proof. unfold df_rows. now rewrite length_map, length_seq. Qed.

Lemma df_rows_lookup3 n1 c1 n2 c2 n3 c3 i x1 x2 x3 :
  c1 !! i = Some x1 -> c2 !! i = Some x2 -> c3 !! i = Some x3 ->
  df_rows [(n1, c1); (n2, c2); (n3, c3)] !! i = Some [x1; x2; x3].
Proof.
  intros L1 L2 L3. unfold df_rows.
  rewrite lookup_map, lookup_seq_lt by (apply lookup_lt_Some in L1; exact L1).
  simpl. rewrite L1, L2, L3. reflexivity.
Qed.

Lemma to_csv_spec df path w :
  exists w', to_csv df path w = Ok tt w' /\
             trace w' = trace w ++ [EvToCsv path] /\
             fs w' = <[path := written (fs w) path (Table (map fst df) (df_rows df))]> (fs w) /\
             disk w' = disk w.
Proof. eexists. split; [reflexivity|]. simpl. auto. Qed.

(** What [infer] has done when it ends. *)
Lemma infer_Ok args m ds loader w v w' :
  dataset loader = ds -> sequential loader ->
  infer args m ds loader w = Ok v w' ->
  exists nd sd predictions m2 w0 w1 evs,
    fs w !! best_path args = Some nd /\ readable nd = true /\
    content nd = Checkpoint sd /\
    adds w w0 [EvLoadStateDict (best_path args)] /\
    predict (set_buffers (snd sd) (set_params (fst sd) m)) loader w0
    = Ok (predictions, map (fun x => of_Z (snd x)) (items ds), m2) w1 /\
    adds w0 w1 (EvModelEval :: evs) /\
    length predictions = length (items ds) /\
    length (video_names ds) = length (items ds) /\
    trace w' = trace w1 ++ [EvToCsv (csv_path args)] /\
    fs w' = <[csv_path args :=
                written (fs w) (csv_path args)
                  (Table ["video_names"; "predictions"; "labels"]
                     (df_rows (predictions_frame ds predictions
                                 (map (fun x => of_Z (snd x)) (items ds)))))]> (fs w) /\
    v = PyNone.
Proof.
  intros Hds Seq E. unfold infer in E.
  apply bind_Ok in E as (m1 & w0 & E0 & E).
  apply load_best_Ok in E0 as (nd & sd & L & R & C & _ & -> & A0).
  apply bind_Ok in E as ([[predictions labels] m2] & w1 & E1 & E).
  pose proof E1 as E1'.
  apply predict_Ok in E1' as (EL & EP & _ & evs & A1); [|exact Seq].
  rewrite Hds in EL, EP. subst labels.
  apply bind_Ok in E as (df & w2 & E2 & E).
  apply new_DataFrame_Ok3 in E2 as (-> & -> & LP & LL).
  rewrite !length_map in LP. rewrite !length_map in LL.
  apply bind_Ok in E as (u & w2 & E2 & E).
  destruct (to_csv_spec (predictions_frame ds predictions
                           (map (fun x => of_Z (snd x)) (items ds))) (csv_path args) w1)
    as (w2' & E2' & T2 & F2 & _).
  unfold predictions_frame in E2'. rewrite E2 in E2'. destruct u. injection E2' as <-.
  unfold ret in E. injection E as <- <-.
  exists nd, sd, predictions, m2, w0, w1, evs.
  destruct A0 as (T0 & F0 & D0). pose proof A1 as (T1 & F1 & D1).
  split; [exact L|]. split; [exact R|]. split; [exact C|].
  split; [unfold adds; auto|]. split; [exact E1|]. split; [exact A1|].
  split; [exact EP|]. split; [lia|]. split; [exact T2|].
  split; [|reflexivity].
  rewrite F2, F1, F0. reflexivity.
Qed.

Lemma main_Ok args w v w' :
  main args w = Ok v w' ->
  exists m ds loader w1,
    prepare args w = Ok (m, ds, loader) w1 /\
    infer args m ds loader w1 = Ok v w'.
Proof.
  unfold main. intros E.
  apply bind_Ok in E as ([[m ds] loader] & w1 & E1 & E). eauto 6.
Qed.


(** C3: whenever [main] ends, the test split has been predicted with the
    state dict read from the checkpoint file: the file is loaded into the
    model right before [predict], also after a training, and the
    predictions of the table are those of [predict] on the loaded
    model. *)
Theorem inference_uses_best_checkpoint args w v w' :
  main args w = Ok v w' ->
  exists m ds loader w1 nd sd m_loaded predictions labels m2 w2 w3 evs nd',
    prepare args w = Ok (m, ds, loader) w1 /\
    fs w1 !! best_path args = Some nd /\ readable nd = true /\
    content nd = Checkpoint sd /\
    state_dict m_loaded = sd /\
    m_kind m_loaded = m_kind m /\ m_frames_cnt m_loaded = m_frames_cnt m /\
    trace w2 = trace w1 ++ [EvLoadStateDict (best_path args)] /\
    fs w2 = fs w1 /\
    predict m_loaded loader w2 = Ok (predictions, labels, m2) w3 /\
    trace w' = trace w1 ++ EvLoadStateDict (best_path args) :: EvModelEval :: evs
                        ++ [EvToCsv (csv_path args)] /\
    fs w' !! csv_path args = Some nd' /\
    content nd' = Table ["video_names"; "predictions"; "labels"]
                        (df_rows (predictions_frame ds predictions labels)).
Proof.
  intros E. apply main_Ok in E as (m & ds & loader & w1 & EP & EI).
  pose proof (prepare_Ok _ _ _ _ _ _ EP) as (_ & Hds & Seq & _).
  apply infer_Ok in EI
    as (nd & sd & predictions & m2 & w2 & w3 & evs &
        L & R & C & A0 & E1 & A1 & _ & _ & T & F & _); [|exact Hds|exact Seq].
  exists m, ds, loader, w1, nd, sd, (set_buffers (snd sd) (set_params (fst sd) m)).
  exists predictions, (map (fun x => of_Z (snd x)) (items ds)), m2, w2, w3, evs.
  eexists.
  split; [exact EP|]. split; [exact L|]. split; [exact R|]. split; [exact C|].
  split; [destruct sd; reflexivity|]. split; [reflexivity|]. split; [reflexivity|].
  split; [apply A0|]. split; [apply A0|]. split; [exact E1|].
  split.
  { rewrite T. destruct A1 as (-> & _). destruct A0 as (-> & _).
    rewrite <- !app_assoc. reflexivity. }
  split; [rewrite F; apply lookup_insert_eq | reflexivity].
Qed.

(** C4: the table written by [main] has the columns [video_names],
    [predictions] and [labels] and one row per video of the test split,
    in the order of the dataset: row [i] carries the [i]-th video name and
    the label of the [i]-th sample. *)
Theorem csv_rows args w v w' :
  main args w = Ok v w' ->
  exists ds nd rows,
    disk w (arg_data args) SplitTest = Some ds /\
    fs w' !! csv_path args = Some nd /\
    content nd = Table ["video_names"; "predictions"; "labels"] rows /\
    length rows = length (items ds) /\
    forall i sample,
      items ds !! i = Some sample ->
      exists name p,
        video_names ds !! i = Some name /\
        rows !! i = Some [CStr name; CNum p; CNum (of_Z (snd sample))].
Proof.
  intros E. apply main_Ok in E as (m & ds & loader & w1 & EP & EI).
  pose proof (prepare_Ok _ _ _ _ _ _ EP) as (Dk & Hds & Seq & _).
  apply infer_Ok in EI
    as (nd & sd & predictions & m2 & w2 & w3 & evs &
        _ & _ & _ & _ & _ & _ & LP & LN & _ & F & _); [|exact Hds|exact Seq].
  exists ds. eexists. eexists.
  split; [exact Dk|].
  split; [rewrite F; apply lookup_insert_eq|].
  split; [reflexivity|]. split.
  - unfold predictions_frame. now rewrite df_rows_length3, length_map.
  - intros i sample Li.
    pose proof (lookup_lt_Some _ _ _ Li) as Hi.
    destruct (lookup_lt_is_Some_2 (video_names ds) i) as (name & Ln); [lia|].
    destruct (lookup_lt_is_Some_2 predictions i) as (p & Lp); [lia|].
    exists name, p. split; [exact Ln|].
    unfold predictions_frame. apply df_rows_lookup3.
    + now rewrite lookup_map, Ln.
    + now rewrite lookup_map, Lp.
    + now rewrite !lookup_map, Li.
Qed.

(** C7: when the checkpoint file is missing or cannot be read at the
    moment [main] loads it (at the start when training is continued, or
    before the prediction), the run ends there with an [OSError]: the
    world is left as it was at the load, so that nothing is predicted and
    no table is written, and the process exits with a failure status. *)
Theorem missing_checkpoint_aborts args w m w0 :
  (arg_continue_training args = true /\ create_model args w = Ok m w0) \/
  (exists ds loader, prepare args w = Ok (m, ds, loader) w0) ->
  (fs w0 !! best_path args = None \/
   exists nd, fs w0 !! best_path args = Some nd /\ readable nd = false) ->
  exists e,
    main args w = Raise e w0 /\ is_OSError e = true /\
    script args w = (1, w0).
Proof.
  intros Site Miss.
  destruct (load_best_unavailable args m w0 Miss) as (e & EL & Ee).
  exists e.
  assert (EM : main args w = Raise e w0).
  { unfold main. destruct Site as [(CT & EC)|(ds & loader & EP)].
    - apply bind_Raise. unfold prepare.
      rewrite (bind_step _ _ _ _ _ EC), CT.
      apply bind_Raise. exact EL.
    - rewrite (bind_step _ _ _ _ _ EP). unfold infer.
      apply bind_Raise. exact EL. }
  split; [exact EM|]. split; [exact Ee|].
  unfold script. now rewrite EM.
Qed.

(** C8: a run of [main] that ends without raising returns [None], and
    [sys.exit] turns it into the exit status 0. *)
Theorem exit_status_zero args w v w' :
  main args w = Ok v w' ->
  v = PyNone /\ sys_exit v = 0 /\ script args w = (0, w').
Proof.
  intros E. pose proof E as E'.
  apply main_Ok in E' as (m & ds & loader & w1 & EP & EI).
  pose proof (prepare_Ok _ _ _ _ _ _ EP) as (_ & Hds & Seq & _).
  apply infer_Ok in EI
    as (nd & sd & predictions & m2 & w2 & w3 & evs &
        _ & _ & _ & _ & _ & _ & _ & _ & _ & _ & ->); [|exact Hds|exact Seq].
  split; [reflexivity|]. split; [reflexivity|].
  unfold script. now rewrite E.
Qed.

(** C9: any [--model-type] other than the exact string [cnn-rnn] makes
    [main] build the average-aggregation model, and no error is raised. *)
Theorem unknown_model_type_is_avg args w :
  arg_model_type args <> "cnn-rnn" ->
  exists m w',
    create_model args w = Ok m w' /\
    m_kind m = AvgCNNModel /\
    trace w' = trace w ++ [EvPrint "Creating model...";
                           EvNewModel AvgCNNModel (arg_frames_cnt args)].
Proof.
  intros Ne. apply String.eqb_neq in Ne.
  destruct (create_model_spec args w) as (m & w' & E & K & _ & A).
  rewrite Ne in K. exists m, w'.
  split; [exact E|]. split; [exact K|].
  destruct A as (T & _). now rewrite T, K.
Qed.

(** *** What a call may touch *)

Lemma within_refl P Q w : within P Q w w.
Proof.
  split; [reflexivity|]. exists []. rewrite app_nil_r. split; [reflexivity | constructor].
Qed.

Lemma within_trans P Q w1 w2 w3 :
  within P Q w1 w2 -> within P Q w2 w3 -> within P Q w1 w3.
Proof.
  intros (F1 & e1 & T1 & Q1) (F2 & e2 & T2 & Q2). split.
  - intros path NP. rewrite F2, F1 by assumption. reflexivity.
  - exists (e1 ++ e2). rewrite T2, T1, app_assoc. split; [reflexivity|].
    apply Forall_app. split; assumption.
Qed.

Lemma within_adds P Q w w' evs : adds w w' evs -> Forall Q evs -> within P Q w w'.
Proof.
  intros (T & F & _) HQ. split; [intros; now rewrite F|]. exists evs. auto.
Qed.

Lemma within_weaken (P P' : string -> Prop) (Q Q' : Event -> Prop) w w' :
  (forall p, P p -> P' p) -> (forall e, Q e -> Q' e) ->
  within P Q w w' -> within P' Q' w w'.
Proof.
  intros HP HQ (F & evs & T & A). split.
  - intros path NP. apply F. intros X. apply NP, HP, X.
  - exists evs. split; [exact T|]. eapply Forall_impl; [exact A | exact HQ].
Qed.

Lemma always_ret {A} P Q (a : A) : always (within P Q) (ret a).
Proof. intros w. apply within_refl. Qed.

Lemma always_raise {A} P Q e : always (within P Q) (@raise World A e).
Proof. intros w. apply within_refl. Qed.

Lemma always_bind {A B} P Q (c : Py A) (k : A -> Py B) :
  always (within P Q) c -> (forall a, always (within P Q) (k a)) ->
  always (within P Q) (bind c k).
Proof.
  intros Hc Hk w. specialize (Hc w). unfold bind.
  destruct (c w) as [a w1|e w1]; simpl in Hc.
  - eapply within_trans; [exact Hc | apply Hk].
  - exact Hc.
Qed.

Lemma always_lift_option {A} P Q e (o : option A) :
  always (within P Q) (lift_option (W := World) e o).
Proof. destruct o; [apply always_ret | apply always_raise]. Qed.

(** A call that returns and adds given events. *)
Lemma always_of_adds {A} P Q (c : Py A) evs :
  (forall w, exists a w', c w = Ok a w' /\ adds w w' evs) ->
  Forall Q evs -> always (within P Q) c.
Proof.
  intros Hc HQ w. destruct (Hc w) as (a & w' & E & Ad). rewrite E. simpl.
  eapply within_adds; eassumption.
Qed.

Lemma always_emit P Q e : Q e -> always (within P Q) (emit e).
Proof.
  intros HQ. apply (always_of_adds P Q _ [e]); [|auto].
  intros w. destruct (emit_adds e w) as (w' & E & A). eauto.
Qed.

Lemma always_model_eval P Q m : Q EvModelEval -> always (within P Q) (model_eval m).
Proof.
  intros HQ. apply (always_of_adds P Q _ [EvModelEval]); [|auto].
  intros w. destruct (model_eval_spec m w) as (w' & E & A). eauto.
Qed.

Lemma always_model_train P Q m : Q EvModelTrain -> always (within P Q) (model_train m).
Proof.
  intros HQ. apply (always_of_adds P Q _ [EvModelTrain]); [|auto].
  intros w. destruct (model_train_spec m w) as (w' & E & A). eauto.
Qed.

Lemma always_model_call P Q g m videos :
  (forall lg, Q (EvForward g lg)) -> always (within P Q) (model_call g m videos).
Proof.
  intros HQ w. destruct (model_call_spec g m videos w) as (w' & E & A).
  rewrite E. simpl. eapply within_adds; [exact A|]. auto.
Qed.

Lemma always_loss_item P Q loss_fn lg labels :
  (forall v, Q (EvLoss v)) -> always (within P Q) (loss_item loss_fn lg labels).
Proof.
  intros HQ w. destruct (loss_item_spec loss_fn lg labels w) as (w' & E & A).
  rewrite E. simpl. eapply within_adds; [exact A|]. auto.
Qed.

Lemma always_backward P Q loss_fn m0 m videos labels :
  Q EvBackward -> always (within P Q) (backward loss_fn m0 m videos labels).
Proof.
  intros HQ w. destruct (backward_spec loss_fn m0 m videos labels w) as (w' & E & A).
  rewrite E. simpl. eapply within_adds; [exact A|]. auto.
Qed.

Lemma always_optimizer_step P Q o m :
  Q EvOptStep -> always (within P Q) (optimizer_step o m).
Proof.
  intros HQ w. destruct (optimizer_step_spec o m w) as (w' & E & A).
  rewrite E. simpl. eapply within_adds; [exact A|]. auto.
Qed.

Lemma always_optimizer_zero_grad P Q m :
  Q EvZeroGrad -> always (within P Q) (optimizer_zero_grad m).
Proof.
  intros HQ w. destruct (optimizer_zero_grad_spec m w) as (w' & E & A).
  rewrite E. simpl. eapply within_adds; [exact A|]. auto.
Qed.

Lemma always_scheduler_step P Q s v o :
  Q (EvSchedStep v) -> always (within P Q) (scheduler_step s v o).
Proof.
  intros HQ w. destruct (scheduler_step_spec s v o w) as (w' & E & A).
  rewrite E. simpl. eapply within_adds; [exact A|]. auto.
Qed.

Lemma always_iter_loader P Q loader : always (within P Q) (iter_loader loader).
Proof.
  intros w. destruct (iter_loader_spec loader w) as (idx & w' & E & A & _).
  rewrite E. simpl. eapply within_adds; [exact A|]. constructor.
Qed.

Lemma always_open_rb P Q path : always (within P Q) (open_rb path).
Proof.
  intros w. unfold open_rb. destruct (fs w !! path) as [nd|]; [destruct (readable nd)|];
    apply within_refl.
Qed.

Lemma always_torch_load P Q d : always (within P Q) (torch_load d).
Proof. destruct d; simpl; first [apply always_ret | apply always_raise]. Qed.

Lemma always_load_state_dict P Q m sd : always (within P Q) (load_state_dict m sd).
Proof.
  unfold load_state_dict. destruct (strict_match _ _ sd);
    [apply always_ret | apply always_raise].
Qed.

Lemma always_write_file P (Q : Event -> Prop) path d :
  P path -> always (within P Q) (write_file path d).
Proof.
  intros HP w. simpl. split.
  - intros p NP. apply lookup_insert_ne. intros ->. contradiction.
  - exists []. rewrite app_nil_r. split; [reflexivity | constructor].
Qed.

Lemma always_torch_save P Q sd path :
  P path -> Q (EvSave path) -> always (within P Q) (torch_save sd path).
Proof.
  intros HP HQ. unfold torch_save. apply always_bind.
  - now apply always_write_file.
  - intros _. now apply always_emit.
Qed.

Lemma always_to_csv P Q df path :
  P path -> Q (EvToCsv path) -> always (within P Q) (to_csv df path).
Proof.
  intros HP HQ. unfold to_csv. apply always_bind.
  - now apply always_write_file.
  - intros _. now apply always_emit.
Qed.

Lemma always_new_DataFrame P Q cols : always (within P Q) (new_DataFrame cols).
Proof.
  unfold new_DataFrame. destruct cols as [|[n c] rest]; [apply always_ret|].
  destruct (forallb _ rest); [apply always_ret | apply always_raise].
Qed.

Lemma always_new_VideoDataset P Q data split :
  always (within P Q) (new_VideoDataset data split).
Proof.
  intros w. unfold new_VideoDataset. destruct (disk w data split); apply within_refl.
Qed.

Lemma always_new_DataLoader P Q ds bs sh dl :
  always (within P Q) (new_DataLoader ds bs sh dl).
Proof.
  unfold new_DataLoader. destruct (bs <=? 0)%Z; [apply always_raise | apply always_ret].
Qed.

Lemma always_load_best P Q args m :
  Q (EvLoadStateDict (best_path args)) -> always (within P Q) (load_best args m).
Proof.
  intros HQ. unfold load_best.
  apply always_bind; [apply always_open_rb | intros fp].
  apply always_bind; [apply always_torch_load | intros sd].
  apply always_bind; [apply always_load_state_dict | intros m1].
  apply always_bind; [now apply always_emit | intros _]. apply always_ret.
Qed.

Lemma always_create_model P Q args :
  Q (EvPrint "Creating model...") ->
  (forall k, Q (EvNewModel k (arg_frames_cnt args))) ->
  always (within P Q) (create_model args).
Proof.
  intros HP HN w. destruct (create_model_spec args w) as (m & w' & E & _ & _ & A).
  rewrite E. simpl. eapply within_adds; [exact A|]. auto.
Qed.

Lemma always_model_to P Q args m : always (within P Q) (model_to args m).
Proof.
  intros w. unfold model_to. destruct (arg_gpu args && negb (cuda_available w));
    apply within_refl.
Qed.

Lemma always_set_frames_cnt P Q n :
  Q (EvSetFramesCnt n) -> always (within P Q) (set_frames_cnt n).
Proof.
  intros HQ w. simpl. split; [reflexivity|]. exists [EvSetFramesCnt n]. auto.
Qed.

Lemma always_predict_loop P Q bs batches :
  (forall lg, Q (EvForward false lg)) ->
  forall i m predictions labels,
    always (within P Q) (predict_loop bs batches i m predictions labels).
Proof.
  intros HQ. induction batches as [|[videos label] rest IH]; intros i m predictions labels.
  - apply always_ret.
  - cbn [predict_loop].
    apply always_bind; [now apply always_model_call | intros [lg m1]].
    apply always_bind; [apply always_lift_option | intros k].
    apply always_bind; [apply always_lift_option | intros ps].
    apply always_bind; [apply always_lift_option | intros ls].
    apply IH.
Qed.

Lemma always_predict P Q m loader :
  Q EvModelEval -> (forall lg, Q (EvForward false lg)) ->
  always (within P Q) (predict m loader).
Proof.
  intros HE HF. unfold predict.
  apply always_bind; [now apply always_model_eval | intros m0].
  apply always_bind; [apply always_iter_loader | intros batches].
  now apply always_predict_loop.
Qed.

Lemma always_train_loop P Q loss_fn batches :
  (forall e, training_event e -> Q e) ->
  forall m o acc, always (within P Q) (train_loop loss_fn batches m o acc).
Proof.
  intros HQ. induction batches as [|[videos labels] rest IH]; intros m o acc.
  - apply always_ret.
  - cbn [train_loop].
    apply always_bind; [apply always_model_call; intros; now apply HQ | intros [lg m1]].
    apply always_bind; [apply always_loss_item; intros; now apply HQ | intros v].
    apply always_bind; [apply always_backward; now apply HQ | intros m2].
    apply always_bind; [apply always_optimizer_step; now apply HQ | intros [o1 m3]].
    apply always_bind; [apply always_optimizer_zero_grad; now apply HQ | intros m4].
    apply IH.
Qed.

Lemma always_train P Q m loader loss_fn o :
  (forall e, training_event e -> Q e) ->
  always (within P Q) (train m loader loss_fn o).
Proof.
  intros HQ. unfold train.
  apply always_bind; [apply always_model_train; now apply HQ | intros m0].
  apply always_bind; [apply always_iter_loader | intros batches].
  apply always_bind; [now apply always_train_loop | intros [[tl m1] o1]].
  apply always_ret.
Qed.

Lemma always_validate_loop P Q loss_fn batches :
  (forall lg, Q (EvForward false lg)) -> (forall v, Q (EvLoss v)) ->
  forall m acc, always (within P Q) (validate_loop loss_fn batches m acc).
Proof.
  intros HF HL. induction batches as [|[videos labels] rest IH]; intros m acc.
  - apply always_ret.
  - cbn [validate_loop].
    apply always_bind; [now apply always_model_call | intros [lg m1]].
    apply always_bind; [now apply always_loss_item | intros v].
    apply IH.
Qed.

Lemma always_validate P Q m loader loss_fn :
  Q EvModelEval -> (forall lg, Q (EvForward false lg)) -> (forall v, Q (EvLoss v)) ->
  always (within P Q) (validate m loader loss_fn).
Proof.
  intros HE HF HL. unfold validate.
  apply always_bind; [now apply always_model_eval | intros m0].
  apply always_bind; [apply always_iter_loader | intros batches].
  apply always_bind; [now apply always_validate_loop | intros [vl m1]].
  apply always_ret.
Qed.

Lemma always_epoch_body P Q args tdl vdl crit epoch t :
  P (best_path args) ->
  (forall e, training_event e -> Q e) -> (forall e, inference_event e -> Q e) ->
  always (within P Q) (epoch_body args tdl vdl crit epoch t).
Proof.
  intros HP HT HI. destruct t as [[[m o] s] best]. unfold epoch_body.
  apply always_bind; [now apply always_train | intros [[tl m1] o1]].
  apply always_bind.
  { apply always_validate; intros; first [now apply HI | now apply HT]. }
  intros [vl m2].
  apply always_bind; [apply always_scheduler_step; now apply HT | intros [s1 o2]].
  apply always_bind; [apply always_emit; now apply HT | intros _].
  destruct (ltb vl best); [|apply always_ret].
  apply always_bind; [apply always_torch_save; [exact HP | now apply HT] | intros _].
  apply always_ret.
Qed.

Lemma always_epochs_loop P Q args tdl vdl crit n :
  P (best_path args) ->
  (forall e, training_event e -> Q e) -> (forall e, inference_event e -> Q e) ->
  forall epoch t, always (within P Q) (epochs_loop args tdl vdl crit n epoch t).
Proof.
  intros HP HT HI. induction n as [|n IH]; intros epoch t.
  - apply always_ret.
  - cbn [epochs_loop].
    apply always_bind; [now apply always_epoch_body | intros t']. apply IH.
Qed.

Lemma always_training P Q args m :
  P (best_path args) ->
  (forall e, training_event e -> Q e) -> (forall e, inference_event e -> Q e) ->
  (forall s, Q (EvPrint s)) ->
  always (within P Q) (training args m).
Proof.
  intros HP HT HI HS. unfold training.
  apply always_bind; [now apply always_emit | intros _].
  apply always_bind; [apply always_new_VideoDataset | intros tds].
  apply always_bind; [apply always_new_DataLoader | intros tdl].
  apply always_bind; [apply always_new_VideoDataset | intros vds].
  apply always_bind; [apply always_new_DataLoader | intros vdl].
  apply always_bind; [apply always_lift_option | intros opt].
  apply always_bind; [now apply always_emit | intros _].
  apply always_bind; [now apply always_epochs_loop | intros [[[m1 o1] s1] b1]].
  apply always_ret.
Qed.

(** The events outside the training branch and outside [predict]. *)
Lemma always_infer P Q args m ds loader :
  P (csv_path args) ->
  (forall e, inference_event e -> Q e) ->
  Q (EvLoadStateDict (best_path args)) -> Q (EvToCsv (csv_path args)) ->
  always (within P Q) (infer args m ds loader).
Proof.
  intros HP HI HL HC. unfold infer.
  apply always_bind; [now apply always_load_best | intros m1].
  apply always_bind.
  { apply always_predict; intros; now apply HI. }
  intros [[ps ls] m2].
  apply always_bind; [apply always_new_DataFrame | intros df].
  apply always_bind; [now apply always_to_csv | intros _].
  apply always_ret.
Qed.

Lemma always_prepare P Q args :
  arg_predict args = true \/
  (P (best_path args) /\ forall e, training_event e -> Q e) ->
  (forall e, setup_event e -> Q e) -> (forall e, inference_event e -> Q e) ->
  always (within P Q) (prepare args).
Proof.
  intros HT HS HI. unfold prepare.
  apply always_bind; [apply always_create_model; intros; now apply HS | intros m].
  apply always_bind.
  { destruct (arg_continue_training args);
      [apply always_load_best; now apply HS | apply always_ret]. }
  intros m1.
  apply always_bind; [apply always_model_to | intros m2].
  apply always_bind; [apply always_set_frames_cnt; now apply HS | intros _].
  apply always_bind.
  { destruct HT as [-> | (HP & HT)]; simpl; [apply always_ret|].
    destruct (negb (arg_predict args)); [|apply always_ret].
    apply always_training; auto. intros s. now apply HS. }
  intros m3.
  apply always_bind; [apply always_new_VideoDataset | intros ds].
  apply always_bind; [apply always_new_DataLoader | intros loader].
  apply always_ret.
Qed.

Lemma always_main P Q args :
  P (csv_path args) ->
  arg_predict args = true \/
  (P (best_path args) /\ forall e, training_event e -> Q e) ->
  (forall e, setup_event e -> Q e) -> (forall e, inference_event e -> Q e) ->
  always (within P Q) (main args).
Proof.
  intros HP HT HS HI. unfold main.
  apply always_bind; [now apply always_prepare | intros [[m ds] loader]].
  apply always_infer; auto; now apply HS.
Qed.

Lemma best_path_not_csv args : best_path args <> csv_path args.
Proof.
  unfold best_path, csv_path. induction (arg_name args) as [|c s IH]; simpl.
  - discriminate.
  - intros [= X]. now apply IH.
Qed.

Lemma predict_loop_same_weights bs batches :
  forall i m predictions labels w r m' w',
    predict_loop bs batches i m predictions labels w = Ok (r, m') w' ->
    same_weights m m'.
Proof.
  induction batches as [|[videos label] rest IH];
    intros i m predictions labels w r m' w' E.
  - simpl in E. unfold ret in E. injection E as _ <- _. apply same_weights_refl.
  - cbn [predict_loop] in E.
    apply bind_Ok in E as ([lg m1] & w1 & E1 & E).
    apply model_call_Ok in E1 as (_ & S1).
    apply bind_Ok in E as (k & w2 & _ & E).
    apply bind_Ok in E as (ps & w3 & _ & E).
    apply bind_Ok in E as (ls & w4 & _ & E).
    apply IH in E. exact (same_weights_trans _ _ _ S1 E).
Qed.

(** X4: [predict] only infers: whether it returns or raises it has left every
    file as it was and has made no call but [model.eval()] and forward
    passes under [no_grad]; when it returns, the parameters and the
    gradients of the model are those it was given. *)
Theorem predict_only_infers m loader w :
  fs (world_of (predict m loader w)) = fs w /\
  (exists evs, trace (world_of (predict m loader w)) = trace w ++ evs /\
               Forall inference_event evs) /\
  (forall r m' w', predict m loader w = Ok (r, m') w' ->
                   m_params m' = m_params m /\ m_grads m' = m_grads m).
Proof.
  destruct (always_predict (fun _ => False) inference_event m loader I
                           (fun _ => I) w) as (F & T).
  split; [|split; [exact T|]].
  - apply map_eq. intros path. apply F. tauto.
  - intros r m' w' E. unfold predict in E.
    apply bind_Ok in E as (m0 & w0 & E0 & E).
    destruct (model_eval_spec m w) as (w0' & E0' & _).
    rewrite E0 in E0'. injection E0' as -> _.
    apply bind_Ok in E as (batches & w1 & _ & E).
    apply predict_loop_same_weights in E as (Pm & G & _).
    simpl in Pm, G. auto.
Qed.

(** X10: whatever the outcome of [main], only the checkpoint and the table
    can have been written: every other file is as it was. *)
Theorem main_writes_two_files args w path :
  path <> best_path args -> path <> csv_path args ->
  fs (world_of (main args w)) !! path = fs w !! path.
Proof.
  intros NB NC.
  destruct (always_main (fun p => p = best_path args \/ p = csv_path args)
                        (fun _ => True) args) with (w := w) as (F & _); auto.
  apply F. tauto.
Qed.

(** X11: under [--predict], whatever the outcome, [main] makes no call of a
    training (no training mode, loss, backward pass, optimizer or
    scheduler step, no checkpoint written) and leaves the checkpoint
    file, like every file but the table, as it was. *)
Theorem predict_only_run args w :
  arg_predict args = true ->
  (forall path, path <> csv_path args ->
                fs (world_of (main args w)) !! path = fs w !! path) /\
  fs (world_of (main args w)) !! best_path args = fs w !! best_path args /\
  exists evs, trace (world_of (main args w)) = trace w ++ evs /\
              Forall (fun e => ~ training_event e) evs.
Proof.
  intros HP.
  destruct (always_main (fun p => p = csv_path args)
                        (fun e => ~ training_event e) args) with (w := w) as (F & T).
  - reflexivity.
  - now left.
  - intros e He. destruct e; simpl in *; tauto.
  - intros e He. destruct e as [| | | | | | |[] ?| | | | | | |]; simpl in *; tauto.
  - split; [exact F|]. split; [|exact T].
    apply F. apply best_path_not_csv.
Qed.

(** *** [predict], batch by batch *)

Lemma take_patch {A} (arr v : list A) start :
  (start <= length arr)%nat ->
  firstn (start + length v) (firstn start arr ++ v ++ skipn (start + length v) arr)
  = firstn start arr ++ v.
Proof.
  intros Hs.
  replace (start + length v)%nat with (length (firstn start arr) + length v)%nat at 1
    by (rewrite length_firstn; lia).
  rewrite firstn_app_2. f_equal.
  rewrite firstn_app, firstn_all, Nat.sub_diag. simpl. now rewrite app_nil_r.
Qed.

Lemma forwarded_buffers b m s : forwarded (set_buffers b m) s <-> forwarded m s.
Proof. unfold forwarded. simpl. tauto. Qed.

Lemma predict_loop_steps bs chunks :
  forall i m predictions labels w predictions' labels' m' w',
    full_but_last bs chunks ->
    length predictions = length labels ->
    length labels = (i * bs + length (concat chunks))%nat ->
    predict_loop bs (map collate_fn chunks) i m predictions labels w
    = Ok (predictions', labels', m') w' ->
    exists steps,
      map pred_batch steps = map collate_fn chunks /\
      Forall flat_argmax steps /\ Forall (forwarded m) steps /\
      predictions' = firstn (i * bs) predictions ++ flat_map pred_entries steps /\
      adds w w' (map (fun s => EvForward false (pred_logits s)) steps).
Proof.
  induction chunks as [|c rest IH];
    intros i m predictions labels w predictions' labels' m' w' Full Len N E.
  - simpl in *. unfold ret in E. injection E as <- <- <- <-.
    exists []. simpl. rewrite app_nil_r, firstn_all2 by lia.
    repeat (split; [first [reflexivity | constructor]|]). apply adds_nil.
  - cbn [map predict_loop collate_fn] in E.
    apply bind_Ok in E as ([logits m1] & w1 & E1 & E).
    destruct (model_call_spec false m (map fst c) w) as (w1' & E1' & A1).
    rewrite E1 in E1'. injection E1' as Elg Em <-.
    apply bind_Ok in E as (prediction & w2 & E2 & E).
    apply lift_option_Ok in E2 as (AM & ->).
    apply bind_Ok in E as (predictions1 & w2 & E2 & E).
    apply lift_option_Ok in E2 as (P1 & ->).
    apply bind_Ok in E as (labels1 & w2 & E2 & E).
    apply lift_option_Ok in E2 as (L1 & ->).
    simpl concat in N. rewrite length_app in N.
    assert (K : (i * bs + length c = Nat.min ((i + 1) * bs) (length labels))%nat).
    { destruct rest; simpl in Full; [simpl in N|]; lia. }
    rewrite (slice_assign_exact _ _ _ (length c)) in L1
      by (rewrite ?length_map; first [exact K | reflexivity]).
    rewrite (slice_assign_broadcast _ _ _ (length c)) in P1 by (rewrite Len; exact K).
    injection L1 as <-. injection P1 as <-.
    set (s0 := ((map fst c, map snd c, logits, prediction) : PredStep)).
    assert (F0 : forwarded m s0).
    { exists (m_buffers m). simpl. exact Elg. }
    assert (Ent : pred_entries s0 = repeat (of_nat prediction) (length c)).
    { unfold pred_entries. simpl. now rewrite length_map. }
    rewrite <- Elg in A1.
    destruct rest as [|c' rest].
    + simpl in E. unfold ret in E. injection E as <- <- <- <-.
      exists [s0]. simpl in N. simpl flat_map. rewrite app_nil_r, Ent.
      split; [reflexivity|]. split; [repeat constructor; exact AM|].
      split; [repeat constructor; exact F0|]. split; [|exact A1].
      rewrite skipn_all2 by lia. now rewrite app_nil_r.
    + destruct Full as (Hc & Full).
      apply IH in E as (steps & B & AMs & Fs & EP & A2).
      * exists (s0 :: steps).
        split; [simpl; now rewrite B|].
        split; [constructor; [exact AM | exact AMs]|].
        split.
        { constructor; [exact F0|]. rewrite Em in Fs.
          eapply Forall_impl; [exact Fs|]. intros s. apply forwarded_buffers. }
        split.
        { assert (TK : firstn (S i * bs)
                         (firstn (i * bs) predictions
                          ++ repeat (of_nat prediction) (length c)
                          ++ skipn (i * bs + length c) predictions)
                       = firstn (i * bs) predictions
                         ++ repeat (of_nat prediction) (length c)).
          { replace (S i * bs)%nat
              with (i * bs + length (repeat (of_nat prediction) (length c)))%nat
              by (rewrite repeat_length; lia).
            replace (i * bs + length c)%nat
              with (i * bs + length (repeat (of_nat prediction) (length c)))%nat
              by (rewrite repeat_length; lia).
            apply take_patch. lia. }
          rewrite EP, TK. simpl flat_map. rewrite Ent. now rewrite app_assoc. }
        exact (adds_trans _ _ _ _ _ A1 A2).
      * exact Full.
      * rewrite !length_patch; first [lia | rewrite ?length_map; reflexivity | apply repeat_length].
      * rewrite length_patch by (rewrite ?length_map; lia).
        change (concat (c' :: rest)) with (c' ++ concat rest) in *.
        lia.
Qed.

Lemma full_but_last_bounds {A} bs (cs : list (list A)) :
  full_but_last bs cs -> Forall (fun c => (0 < length c <= bs)%nat \/ length c = bs) cs.
Proof.
  induction cs as [|c rest IH]; intros F; [constructor|].
  destruct rest as [|c' rest].
  - constructor; [left; exact F | constructor].
  - destruct F as (Hc & F). constructor; [right; exact Hc | apply IH, F].
Qed.

Lemma sequential_chunks loader :
  sequential loader ->
  batches_of loader (seq 0 (length (items (dataset loader))))
  = map collate_fn (batch_sampler (batch_size loader) false (items (dataset loader)) []) /\
  concat (batch_sampler (batch_size loader) false (items (dataset loader)) [])
  = items (dataset loader) /\
  full_but_last (batch_size loader)
                (batch_sampler (batch_size loader) false (items (dataset loader)) []).
Proof.
  intros (_ & Dl & Hbs). unfold batches_of. rewrite fetch_seq, Dl.
  split; [reflexivity|].
  destruct (batch_sampler_keep (batch_size loader) (items (dataset loader)) [])
    as (C & F); [simpl; lia|]. auto.
Qed.

Lemma predict_unfold m loader w :
  sequential loader ->
  exists w1,
    adds w w1 [EvModelEval] /\
    predict m loader w
    = predict_loop (batch_size loader)
        (map collate_fn (batch_sampler (batch_size loader) false
                                       (items (dataset loader)) []))
        0 (set_training false m)
        (np_zeros (length (items (dataset loader))))
        (np_zeros (length (items (dataset loader)))) w1.
Proof.
  intros Seq. unfold predict.
  destruct (model_eval_spec m w) as (w0 & E0 & A0).
  rewrite (bind_step _ _ _ _ _ E0).
  destruct (iter_loader_spec loader w0) as (idx & w1 & E1 & A1 & _ & Sq).
  rewrite (bind_step _ _ _ _ _ E1).
  rewrite (Sq (proj1 Seq)).
  destruct (sequential_chunks loader Seq) as (-> & _).
  exists w1. split; [|reflexivity].
  exact (adds_trans _ _ _ _ _ A0 A1).
Qed.

Lemma predict_steps m loader w predictions labels m' w' :
  sequential loader ->
  predict m loader w = Ok (predictions, labels, m') w' ->
  exists steps : list PredStep,
    flat_map (fun s => fst (pred_batch s)) steps = map fst (items (dataset loader)) /\
    Forall (fun s => (0 < length (fst (pred_batch s)) <= batch_size loader)%nat) steps /\
    Forall flat_argmax steps /\
    Forall (forwarded (set_training false m)) steps /\
    predictions = flat_map pred_entries steps /\
    trace w' = trace w ++ EvModelEval :: map (fun s => EvForward false (pred_logits s)) steps.
Proof.
  intros Seq E.
  destruct (predict_unfold m loader w Seq) as (w1 & A0 & EU). rewrite EU in E.
  destruct (sequential_chunks loader Seq) as (_ & C & Full).
  apply predict_loop_steps in E as (steps & B & AM & Fw & EP & A1).
  - exists steps.
    split.
    { rewrite flat_map_concat_map.
      assert (X : map (fun s => fst (pred_batch s)) steps
                  = map fst (map pred_batch steps)) by (now rewrite map_map).
      rewrite X, B, map_map. simpl.
      rewrite <- concat_map. now rewrite C. }
    split.
    { apply full_but_last_bounds in Full.
      assert (G : Forall (fun b : Batch => (0 < length (fst b) <= batch_size loader)%nat)
                         (map pred_batch steps)).
      { rewrite B. apply Forall_map. eapply Forall_impl; [exact Full|].
        intros c Hc. cbv beta in Hc. simpl. rewrite length_map.
        destruct Seq as (_ & _ & Hbs). destruct Hc as [Hc|Hc]; lia. }
      apply Forall_map in G. exact G. }
    split; [exact AM|]. split; [exact Fw|]. split; [exact EP|].
    pose proof (adds_trans _ _ _ _ _ A0 A1) as (T & _). exact T.
  - exact Full.
  - reflexivity.
  - rewrite C. unfold np_zeros. now rewrite repeat_length.
Qed.

(** X1: what [predict] stores, batch by batch: one index per batch, the
    argmax of the flattened logits of the batch, repeated for each of its
    videos; the batches are the test videos in order. *)
Theorem predict_one_index_per_batch m loader w predictions labels m' w' :
  sequential loader ->
  predict m loader w = Ok (predictions, labels, m') w' ->
  exists steps : list PredStep,
    flat_map (fun s => fst (pred_batch s)) steps = map fst (items (dataset loader)) /\
    Forall (fun s => (0 < length (fst (pred_batch s)) <= batch_size loader)%nat) steps /\
    Forall flat_argmax steps /\
    Forall (forwarded (set_training false m)) steps /\
    predictions = flat_map pred_entries steps /\
    trace w' = trace w ++ EvModelEval :: map (fun s => EvForward false (pred_logits s)) steps.
Proof. apply predict_steps. Qed.

Lemma single_steps nc m steps :
  logits_shape nc ->
  Forall (fun s => (0 < length (fst (pred_batch s)) <= 1)%nat) steps ->
  Forall flat_argmax steps ->
  Forall (forwarded m) steps ->
  Forall (fun s => exists row, pred_logits s = [row] /\ length row = nc /\
                               np_argmax [row] = Some (pred_index s) /\
                               (pred_index s < nc)%nat) steps /\
  flat_map pred_entries steps = map (fun s => of_nat (pred_index s)) steps /\
  length (flat_map (fun s => fst (pred_batch s)) steps) = length steps.
Proof.
  intros Sh. induction steps as [|s steps IH]; intros B AM Fw.
  - split; [constructor|]. split; reflexivity.
  - inversion B as [|? ? Bs B']; subst. inversion AM as [|? ? AMs AM']; subst.
    inversion Fw as [|? ? Fs Fw']; subst.
    destruct (IH B' AM' Fw') as (R & EP & L).
    assert (L1 : length (fst (pred_batch s)) = 1%nat) by lia.
    destruct Fs as (b & Fs).
    destruct (Sh (m_kind m) (m_frames_cnt m) (m_training m) (m_params m) b
                 (fst (pred_batch s))) as (Len & Rows).
    rewrite <- Fs in Len, Rows. rewrite L1 in Len.
    destruct (pred_logits s) as [|row [|row' lg]] eqn:Lg; try discriminate.
    apply Forall_inv in Rows.
    unfold flat_argmax in AMs. rewrite Lg in AMs.
    split; [|split].
    + constructor; [|exact R]. exists row.
      split; [first [reflexivity | exact Lg]|]. split; [exact Rows|]. split; [exact AMs|].
      rewrite <- Rows. now apply np_argmax_single_row.
    + simpl. rewrite EP. unfold pred_entries. rewrite L1. reflexivity.
    + simpl. rewrite length_app, L, L1. reflexivity.
Qed.

Lemma singletons {A} (ll : list (list A)) :
  Forall (fun l => length l = 1%nat) ll ->
  ll = map (fun x => [x]) (concat ll).
Proof.
  induction 1 as [|l ll L _ IH]; [reflexivity|].
  destruct l as [|x [|y l]]; try discriminate. simpl. now rewrite <- IH.
Qed.

(** X2: with one video per batch, and a model that returns one row of [nc]
    scores per video, [predict] stores for each video of the dataset, in
    the order of the dataset, the argmax of the row that a forward pass
    of the model, in evaluation mode, returns for that video alone: an
    index below [nc]. *)
Theorem predict_single_video_batches nc m loader w predictions labels m' w' :
  logits_shape nc ->
  sequential loader -> batch_size loader = 1%nat ->
  predict m loader w = Ok (predictions, labels, m') w' ->
  exists steps : list PredStep,
    map (fun s => fst (pred_batch s)) steps
    = map (fun x => [fst x]) (items (dataset loader)) /\
    Forall (forwarded (set_training false m)) steps /\
    Forall (fun s => exists row, pred_logits s = [row] /\ length row = nc /\
                                 np_argmax [row] = Some (pred_index s) /\
                                 (pred_index s < nc)%nat) steps /\
    predictions = map (fun s => of_nat (pred_index s)) steps /\
    length predictions = length (items (dataset loader)) /\
    trace w' = trace w ++ EvModelEval :: map (fun s => EvForward false (pred_logits s)) steps.
Proof.
  intros Sh Seq B1 E.
  destruct (predict_steps _ _ _ _ _ _ _ Seq E) as (steps & V & Bd & AM & Fw & EP & T).
  rewrite B1 in Bd.
  destruct (single_steps nc _ steps Sh Bd AM Fw) as (R & EP' & L).
  assert (Al : map (fun s => fst (pred_batch s)) steps
               = map (fun x => [fst x]) (items (dataset loader))).
  { rewrite (singletons (map (fun s => fst (pred_batch s)) steps)).
    - rewrite <- flat_map_concat_map, V, map_map. reflexivity.
    - apply Forall_map. eapply Forall_impl; [exact Bd|].
      intros s Hs. cbv beta in Hs. lia. }
  exists steps.
  split; [exact Al|]. split; [exact Fw|]. split; [exact R|].
  split; [congruence|]. split; [|exact T].
  rewrite EP, EP', length_map.
  rewrite <- (length_map (fun s => fst (pred_batch s)) steps), Al. apply length_map.
Qed.

Lemma predict_loop_progress bs chunks :
  logits_nonempty -> (0 < bs)%nat ->
  forall i m predictions labels w,
    full_but_last bs chunks ->
    length predictions = length labels ->
    length labels = (i * bs + length (concat chunks))%nat ->
    exists r w', predict_loop bs (map collate_fn chunks) i m predictions labels w = Ok r w'.
Proof.
  intros NE Hbs. induction chunks as [|c rest IH]; intros i m predictions labels w Full Len N.
  - simpl. unfold ret. eauto.
  - cbn [map predict_loop collate_fn].
    destruct (model_call_spec false m (map fst c) w) as (w1 & E1 & _).
    rewrite (bind_step _ _ _ _ _ E1); cbv beta iota.
    assert (Hc : (0 < length c)%nat).
    { destruct rest; simpl in Full; lia. }
    assert (NEc : map fst c <> []) by (destruct c; simpl in *; [lia | discriminate]).
    specialize (NE (m_kind m) (m_frames_cnt m) (m_training m) (m_params m)
                   (m_buffers m) (map fst c) NEc).
    set (lg := fst (forward (m_kind m) (m_frames_cnt m) (m_training m) (m_params m)
                            (m_buffers m) (map fst c))) in *.
    unfold np_argmax at 1. destruct (concat lg) as [|x l]; [congruence|].
    simpl lift_option. unfold ret at 1. unfold bind at 1.
    simpl concat in N. rewrite length_app in N.
    assert (K : (i * bs + length c = Nat.min ((i + 1) * bs) (length labels))%nat).
    { destruct rest; simpl in Full; [simpl in N|]; lia. }
    rewrite (slice_assign_broadcast _ _ _ (length c)) by (rewrite Len; exact K).
    simpl lift_option. unfold ret at 1. unfold bind at 1.
    rewrite (slice_assign_exact _ _ _ (length c))
      by (rewrite ?length_map; first [exact K | reflexivity]).
    simpl lift_option. unfold ret at 1. unfold bind at 1.
    destruct rest as [|c' rest].
    + simpl. unfold ret. eauto.
    + destruct Full as (Hb & Full). apply IH.
      * exact Full.
      * rewrite !length_patch;
          first [lia | rewrite ?length_map; reflexivity | apply repeat_length].
      * rewrite length_patch by (rewrite ?length_map; lia).
        change (concat (c' :: rest)) with (c' ++ concat rest) in *. lia.
Qed.

(** X3: once the pass over a test loader has yielded its batches, and
    when the model returns at least one score per batch, the loop of
    [predict] returns, and so does [predict]: no slice assignment raises
    a [ValueError], also for a last batch that is not full.  A loader
    that fails while it collates is outside this statement. *)
Theorem predict_returns m loader w w0 batches w1 :
  logits_nonempty -> sequential loader ->
  model_eval m w = Ok (set_training false m) w0 ->
  iter_loader loader w0 = Ok batches w1 ->
  exists predictions labels m' w',
    predict_loop (batch_size loader) batches 0 (set_training false m)
                 (np_zeros (length (items (dataset loader))))
                 (np_zeros (length (items (dataset loader)))) w1
    = Ok (predictions, labels, m') w' /\
    predict m loader w = Ok (predictions, labels, m') w' /\
    length predictions = length (items (dataset loader)) /\
    labels = map (fun x => of_Z (snd x)) (items (dataset loader)).
Proof.
  intros NE Seq E0 E1.
  assert (EU : predict m loader w
               = predict_loop (batch_size loader) batches 0 (set_training false m)
                   (np_zeros (length (items (dataset loader))))
                   (np_zeros (length (items (dataset loader)))) w1).
  { unfold predict. rewrite (bind_step _ _ _ _ _ E0); cbv beta zeta.
    now rewrite (bind_step _ _ _ _ _ E1). }
  destruct (iter_loader_spec loader w0) as (idx & w1' & E1' & _ & _ & Sq).
  rewrite E1 in E1'. injection E1' as EB _.
  rewrite (Sq (proj1 Seq)) in EB.
  destruct (sequential_chunks loader Seq) as (EC & C & Full).
  rewrite EC in EB.
  destruct (predict_loop_progress (batch_size loader) _ NE (proj2 (proj2 Seq)) 0
              (set_training false m)
              (np_zeros (length (items (dataset loader))))
              (np_zeros (length (items (dataset loader)))) w1 Full eq_refl)
    as ([[predictions labels] m'] & w' & E).
  { rewrite C. unfold np_zeros. now rewrite repeat_length. }
  rewrite <- EB in E.
  exists predictions, labels, m', w'. split; [exact E|].
  rewrite <- EU in E. split; [exact E|].
  apply predict_Ok in E as (EL & EP & _); auto.
Qed.

(** *** The epochs, in more detail *)

Lemma ltb_irrefl x : ltb x x = false.
Proof.
  destruct x; simpl; try reflexivity. unfold Qltb.
  assert (L : Qle_bool q q = true) by (apply Qle_bool_iff, Qle_refl).
  now rewrite L.
Qed.

Lemma Qltb_lt a b : Qltb a b = true <-> (a < b)%Q.
Proof.
  unfold Qltb. rewrite negb_true_iff. split.
  - intros L. apply Qnot_le_lt. intros X. apply Qle_bool_iff in X. congruence.
  - intros L. destruct (Qle_bool b a) eqn:X; [|reflexivity].
    apply Qle_bool_iff in X. exfalso. exact (Qlt_not_le _ _ L X).
Qed.

Lemma ltb_trans x y z : ltb x y = true -> ltb y z = true -> ltb x z = true.
Proof.
  destruct x, y, z; simpl; try congruence.
  rewrite !Qltb_lt. apply Qlt_trans.
Qed.

(** A loss that is not below the old best is not below a lower best. *)
Lemma ltb_false_lower v b b' : ltb v b = false -> ltb b' b = true -> ltb v b' = false.
Proof.
  intros NV L. destruct (ltb v b') eqn:X; [|reflexivity].
  rewrite (ltb_trans _ _ _ X L) in NV. discriminate.
Qed.

Lemma ltb_nan_l x : ltb NaN x = false.
Proof. reflexivity. Qed.

Lemma train_events_no_sched steps : sched_values (flat_map train_events steps) = [].
Proof. induction steps as [|s steps IH]; [reflexivity | exact IH]. Qed.

Lemma validate_events_no_sched steps : sched_values (flat_map validate_events steps) = [].
Proof. induction steps as [|s steps IH]; [reflexivity | exact IH]. Qed.

Lemma sched_values_app e1 e2 : sched_values (e1 ++ e2) = sched_values e1 ++ sched_values e2.
Proof. unfold sched_values. apply flat_map_app. Qed.

(** One epoch: the result, the events in order, and what is on disk. *)
Lemma epoch_body_run args tdl vdl crit epoch m o s best w :
  exists tsteps vsteps m1 o1 m2 w1 w2 w',
    train m tdl crit o w = Ok (np_mean (map step_loss tsteps), m1, o1) w1 /\
    validate m1 vdl crit w1 = Ok (np_mean (map step_loss vsteps), m2) w2 /\
    (exists w0 w0', model_eval m1 w1 = Ok (set_training false m1) w0 /\
                    iter_loader vdl w0 = Ok (map step_batch vsteps) w0') /\
    Forall (loss_of crit) vsteps /\
    same_weights m1 m2 /\
    epoch_body args tdl vdl crit epoch (m, o, s, best) w
    = Ok (m2, snd (plateau_step s (np_mean (map step_loss vsteps)) o1),
          fst (plateau_step s (np_mean (map step_loss vsteps)) o1),
          if ltb (np_mean (map step_loss vsteps)) best
          then np_mean (map step_loss vsteps) else best) w' /\
    trace w' = trace w
               ++ (EvModelTrain :: flat_map train_events tsteps)
               ++ (EvModelEval :: flat_map validate_events vsteps)
               ++ [EvSchedStep (np_mean (map step_loss vsteps));
                   EvPrintEpoch epoch (np_mean (map step_loss tsteps))
                                (np_mean (map step_loss vsteps))]
               ++ (if ltb (np_mean (map step_loss vsteps)) best
                   then [EvSave (best_path args)] else []) /\
    fs w' = (if ltb (np_mean (map step_loss vsteps)) best
             then <[best_path args :=
                      written (fs w) (best_path args) (Checkpoint (state_dict m2))]> (fs w)
             else fs w).
Proof.
  destruct (train_spec m tdl crit o w)
    as (tsteps & m1 & o1 & _ & _ & w1 & _ & _ & E1 & A1 & _).
  destruct (validate_spec m1 vdl crit w1)
    as (vsteps & m2 & w0 & w0' & w2 & Ev & Ei & E2 & A2 & L2 & S2).
  destruct (epoch_body_spec args tdl vdl crit epoch m o s best w)
    as (tl & vl & m1' & o1' & m2' & w1' & w2' & pre & w' &
        E1' & E2' & A & _ & E & T & _ & F).
  rewrite E1 in E1'. injection E1' as <- <- <- <-.
  rewrite E2 in E2'. injection E2' as <- <- <-.
  exists tsteps, vsteps, m1, o1, m2, w1, w2, w'.
  split; [exact E1|]. split; [exact E2|]. split; [eauto|].
  split; [exact L2|]. split; [exact S2|]. split; [exact E|]. split; [|exact F].
  rewrite T. destruct A2 as (-> & _). destruct A1 as (-> & _).
  rewrite <- !app_assoc. reflexivity.
Qed.

Lemma no_save_in l p : List.filter is_save l = [] -> ~ In (EvSave p) l.
Proof.
  intros F X.
  assert (Y : In (EvSave p) (List.filter is_save l)) by (apply List.filter_In; auto).
  rewrite F in Y. exact Y.
Qed.

Lemma ltb_asym x y : ltb x y = true -> ltb y x = false.
Proof.
  intros L. destruct (ltb y x) eqn:X; [|reflexivity].
  pose proof (ltb_trans _ _ _ L X) as T. rewrite ltb_irrefl in T. discriminate.
Qed.

(** X6: the checkpoint written in an epoch holds the parameters as the
    training pass of that epoch left them: the validation in between does
    not change them.  Without an improvement the file is as it was. *)
Theorem checkpoint_holds_trained_parameters args tdl vdl crit epoch m o s best w :
  exists train_loss val_loss m1 o1 m2 o2 s2 best' w1 w2 w',
    train m tdl crit o w = Ok (train_loss, m1, o1) w1 /\
    validate m1 vdl crit w1 = Ok (val_loss, m2) w2 /\
    epoch_body args tdl vdl crit epoch (m, o, s, best) w = Ok (m2, o2, s2, best') w' /\
    m_params m2 = m_params m1 /\
    fs w' !! best_path args
    = (if ltb val_loss best
       then Some (written (fs w) (best_path args)
                          (Checkpoint (m_params m1, m_buffers m2)))
       else fs w !! best_path args).
Proof.
  destruct (epoch_body_run args tdl vdl crit epoch m o s best w)
    as (tsteps & vsteps & m1 & o1 & m2 & w1 & w2 & w' &
        E1 & E2 & _ & _ & S & E & _ & F).
  do 11 eexists.
  split; [exact E1|]. split; [exact E2|]. split; [exact E|].
  split; [apply S|].
  rewrite F. destruct (ltb _ best); [|reflexivity].
  rewrite lookup_insert_eq. unfold state_dict.
  destruct S as (-> & _). reflexivity.
Qed.

(** X7: the loop over the epochs keeps [best_val_loss] as the lowest
    validation loss so far: at the end no epoch has a loss below it, it is
    the initial value or the loss of an epoch, and a checkpoint has been
    written in the loop exactly when it ends below its initial value. *)
Theorem best_val_loss_is_lowest args tdl vdl crit n :
  forall epoch m o s best w,
  exists m' o' s' best' w' evs,
    epochs_loop args tdl vdl crit n epoch (m, o, s, best) w = Ok (m', o', s', best') w' /\
    trace w' = trace w ++ evs /\
    length (sched_values evs) = n /\
    Forall (fun v => ltb v best' = false) (sched_values evs) /\
    (best' = best \/ ltb best' best = true) /\
    (best' = best \/ In best' (sched_values evs)) /\
    (In (EvSave (best_path args)) evs <-> ltb best' best = true).
Proof.
  induction n as [|n IH]; intros epoch m o s best w.
  - exists m, o, s, best, w, []. simpl. rewrite app_nil_r, ltb_irrefl.
    split; [reflexivity|]. split; [reflexivity|]. split; [reflexivity|].
    split; [constructor|]. split; [now left|]. split; [now left|].
    split; [tauto | discriminate].
  - cbn [epochs_loop].
    destruct (epoch_body_run args tdl vdl crit epoch m o s best w)
      as (tsteps & vsteps & m1 & o1 & m2 & w1 & w2 & w3 &
          _ & _ & _ & _ & _ & E & T & _).
    rewrite (bind_step _ _ _ _ _ E).
    set (val := np_mean (map step_loss vsteps)) in *.
    set (best1 := if ltb val best then val else best) in *.
    match goal with |- context [epochs_loop _ _ _ _ n (S epoch) (?m3, ?o3, ?s3, best1) w3] =>
      destruct (IH (S epoch) m3 o3 s3 best1 w3)
        as (m' & o' & s' & best' & w' & evs & E' & T' & Ln & Low & Dec & Mem & Sv) end.
    set (evs1 := (EvModelTrain :: flat_map train_events tsteps)
                 ++ (EvModelEval :: flat_map validate_events vsteps)
                 ++ [EvSchedStep val;
                     EvPrintEpoch epoch (np_mean (map step_loss tsteps)) val]
                 ++ (if ltb val best then [EvSave (best_path args)] else [])) in *.
    assert (SV : sched_values evs1 = [val]).
    { unfold evs1. rewrite !sched_values_app. simpl.
      rewrite train_events_no_sched, validate_events_no_sched.
      destruct (ltb val best); reflexivity. }
    assert (SA : In (EvSave (best_path args)) evs1 <-> ltb val best = true).
    { unfold evs1. rewrite !in_app_iff. split.
      - intros [X|[X|[X|X]]].
        + destruct X as [X|X]; [discriminate|].
          exfalso. exact (no_save_in _ _ (train_events_no_save tsteps) X).
        + destruct X as [X|X]; [discriminate|].
          exfalso. exact (no_save_in _ _ (validate_events_no_save vsteps) X).
        + destruct X as [X|[X|[]]]; discriminate.
        + destruct (ltb val best); [reflexivity | destruct X].
      - intros ->. right. right. right. now left. }
    exists m', o', s', best', w', (evs1 ++ evs).
    split; [exact E'|].
    split; [rewrite T', T, <- app_assoc; reflexivity|].
    rewrite sched_values_app, SV.
    split; [simpl; now rewrite Ln|].
    assert (B1 : (best1 = best /\ ltb val best = false) \/
                 (best1 = val /\ ltb val best = true)).
    { unfold best1. destruct (ltb val best); auto. }
    assert (Dec' : best' = best \/ ltb best' best = true).
    { destruct B1 as [(-> & _)|(Eb & L)]; [exact Dec|].
      right. destruct Dec as [->|D]; [now rewrite Eb|].
      rewrite Eb in D. exact (ltb_trans _ _ _ D L). }
    split.
    { constructor; [|exact Low].
      destruct B1 as [(Eb & NL)|(Eb & L)]; rewrite Eb in Dec.
      - destruct Dec as [->|D]; [exact NL | exact (ltb_false_lower _ _ _ NL D)].
      - destruct Dec as [->|D]; [apply ltb_irrefl | exact (ltb_asym _ _ D)]. }
    split; [exact Dec'|].
    split.
    { destruct Mem as [->|M]; [|right; right; exact M].
      destruct B1 as [(-> & _)|(-> & _)]; [now left | right; now left]. }
    rewrite in_app_iff, SA, Sv. split.
    + intros [L|L].
      * destruct B1 as [(_ & NL)|(Eb & _)]; [congruence|].
        rewrite Eb in Dec. destruct Dec as [->|D]; [exact L | exact (ltb_trans _ _ _ D L)].
      * destruct B1 as [(Eb & _)|(Eb & L1)]; rewrite Eb in L; [exact L|].
        exact (ltb_trans _ _ _ L L1).
    + intros L. destruct B1 as [(Eb & NL)|(Eb & L1)]; [|now left].
      right. rewrite Eb in *. destruct Dec as [->|D]; [|exact D].
      rewrite ltb_irrefl in L. discriminate.
Qed.

(** *** Validation passes *)

Lemma iter_loader_empty loader w batches w' :
  items (dataset loader) = [] ->
  iter_loader loader w = Ok batches w' -> batches = [].
Proof.
  intros Em E.
  destruct (iter_loader_spec loader w) as (idx & w1 & E1 & _ & P & _).
  rewrite E in E1. injection E1 as -> _.
  rewrite Em in P. simpl in P. apply Permutation_sym, Permutation_nil in P. subst idx.
  unfold batches_of, fetch. simpl. destruct (drop_last loader); reflexivity.
Qed.

Lemma iter_loader_sequential loader w batches w' :
  sequential loader ->
  iter_loader loader w = Ok batches w' ->
  concat (map fst batches) = map fst (items (dataset loader)) /\
  concat (map snd batches) = map snd (items (dataset loader)) /\
  (items (dataset loader) <> [] -> batches <> []).
Proof.
  intros Seq E.
  destruct (iter_loader_spec loader w) as (idx & w1 & E1 & _ & _ & Sq).
  rewrite E in E1. injection E1 as -> _.
  rewrite (Sq (proj1 Seq)).
  destruct (sequential_chunks loader Seq) as (-> & C & _).
  rewrite !map_map. simpl.
  split; [|split].
  - now rewrite <- concat_map, C.
  - now rewrite <- concat_map, C.
  - intros NE X. apply map_eq_nil in X. rewrite X in C. simpl in C. congruence.
Qed.

Lemma validate_loop_exact loss_fn batches :
  forall m acc w,
  exists w',
    validate_loop loss_fn batches m acc w
    = Ok (acc ++ map step_loss (fst (spec_validate_batches loss_fn batches m)),
          snd (spec_validate_batches loss_fn batches m)) w' /\
    map step_batch (fst (spec_validate_batches loss_fn batches m)) = batches /\
    adds w w' (flat_map validate_events (fst (spec_validate_batches loss_fn batches m))).
Proof.
  induction batches as [|[videos labels] rest IH]; intros m acc w.
  - exists w. simpl. rewrite app_nil_r.
    split; [reflexivity|]. split; [reflexivity | apply adds_nil].
  - cbn [validate_loop].
    step (model_call_spec false m videos w).
    set (fb := forward (m_kind m) (m_frames_cnt m) (m_training m) (m_params m)
                       (m_buffers m) videos) in *.
    step (loss_item_spec loss_fn (fst fb) labels w0).
    destruct (IH (set_buffers (snd fb) m) (acc ++ [loss_value loss_fn (fst fb) labels]) w1)
      as (w' & E' & B' & A').
    cbn [spec_validate_batches]. unfold spec_validate_batch. simpl fst. simpl snd.
    fold fb.
    destruct (spec_validate_batches loss_fn rest (set_buffers (snd fb) m)) as [steps m'].
    simpl fst in *. simpl snd in *.
    exists w'. split.
    { rewrite E'. simpl. rewrite <- app_assoc. reflexivity. }
    split; [simpl; now rewrite B'|].
    change (flat_map validate_events (_ :: steps))
      with ([EvForward false (fst fb)] ++ [EvLoss (loss_value loss_fn (fst fb) labels)] ++
            flat_map validate_events steps).
    repeat (eapply adds_trans; [eassumption|]). assumption.
Qed.

(** X5: what a validation pass that returns has computed, for a loader as
    [main] builds it for the validation split: its batches hold every
    video and every label of the split once, in the order of the split,
    each batch with as many labels as videos and at most [batch_size]
    of them; the logits of a batch are those of a forward pass of the
    module, in evaluation mode and with the buffers the batches before
    have left, on the videos of that batch, and its loss is the criterion
    on these logits and the labels of that batch; the value returned is
    [np.mean] of these losses. *)
Theorem validate_covers_split m loader loss_fn w val m' w' :
  sequential loader ->
  validate m loader loss_fn w = Ok (val, m') w' ->
  exists steps : list Step,
    flat_map (fun s => fst (step_batch s)) steps = map fst (items (dataset loader)) /\
    flat_map (fun s => snd (step_batch s)) steps = map snd (items (dataset loader)) /\
    Forall (fun s => length (snd (step_batch s)) = length (fst (step_batch s)) /\
                     (0 < length (fst (step_batch s)) <= batch_size loader)%nat) steps /\
    spec_validate_batches loss_fn (map step_batch steps) (set_training false m)
    = (steps, m') /\
    val = np_mean (map step_loss steps) /\
    trace w' = trace w ++ EvModelEval :: flat_map validate_events steps.
Proof.
  intros Seq E. unfold validate in E.
  destruct (model_eval_spec m w) as (w0 & E0 & A0).
  rewrite (bind_step _ _ _ _ _ E0) in E; cbv beta in E.
  destruct (iter_loader_spec loader w0) as (idx & w1 & E1 & A1 & _ & Sq).
  rewrite (bind_step _ _ _ _ _ E1) in E; cbv beta in E.
  destruct (iter_loader_sequential loader w0 _ w1 Seq E1) as (CV & CL & _).
  destruct (validate_loop_exact loss_fn (batches_of loader idx) (set_training false m) [] w1)
    as (w2 & E2 & B2 & A2).
  rewrite (bind_step _ _ _ _ _ E2) in E; cbv beta iota in E.
  unfold ret in E. injection E as EV EM EW.
  destruct (spec_validate_batches loss_fn (batches_of loader idx) (set_training false m))
    as [steps m1] eqn:ES.
  simpl fst in *. simpl snd in *. simpl app in EV.
  exists steps.
  split; [rewrite flat_map_concat_map, <- CV, <- B2, map_map; reflexivity|].
  split; [rewrite flat_map_concat_map, <- CL, <- B2, map_map; reflexivity|].
  split.
  { rewrite (Sq (proj1 Seq)) in B2.
    destruct (sequential_chunks loader Seq) as (EC & _ & Full). rewrite EC in B2.
    apply full_but_last_bounds in Full.
    assert (G : Forall (fun b : Batch => length (snd b) = length (fst b) /\
                                         (0 < length (fst b) <= batch_size loader)%nat)
                       (map step_batch steps)).
    { rewrite B2. apply Forall_map. eapply Forall_impl; [exact Full|].
      intros c Hc. cbv beta in Hc. simpl. rewrite !length_map.
      destruct Seq as (_ & _ & Hbs). split; [reflexivity|]. destruct Hc as [Hc|Hc]; lia. }
    apply Forall_map in G. exact G. }
  split; [rewrite B2, ES, <- EM; reflexivity|].
  split; [symmetry; exact EV|].
  subst w'.
  pose proof (adds_trans _ _ _ _ _ A0 (adds_trans _ _ _ _ _ A1 A2)) as (T & _). exact T.
Qed.

(** Over an empty split [validate] returns [nan]. *)
Lemma validate_empty m loader crit w val m' w' :
  items (dataset loader) = [] ->
  validate m loader crit w = Ok (val, m') w' -> val = NaN.
Proof.
  intros Em E.
  destruct (validate_spec m loader crit w)
    as (steps & m1 & w0 & w1 & w2 & _ & Ei & E' & _).
  rewrite E in E'. injection E' as -> _ _.
  apply iter_loader_empty in Ei; [|exact Em].
  apply map_eq_nil in Ei. now subst steps.
Qed.

Lemma epochs_loop_empty_val args tdl vdl crit n :
  items (dataset vdl) = [] ->
  forall epoch t w,
  exists t' w' evs,
    epochs_loop args tdl vdl crit n epoch t w = Ok t' w' /\
    trace w' = trace w ++ evs /\ fs w' = fs w /\
    ~ In (EvSave (best_path args)) evs /\
    Forall (fun v => v = NaN) (sched_values evs).
Proof.
  intros Em. induction n as [|n IH]; intros epoch t w.
  - exists t, w, []. simpl. rewrite app_nil_r.
    split; [reflexivity|]. split; [reflexivity|]. split; [reflexivity|].
    split; [tauto | constructor].
  - destruct t as [[[m o] s] best]. cbn [epochs_loop].
    destruct (epoch_body_run args tdl vdl crit epoch m o s best w)
      as (tsteps & vsteps & m1 & o1 & m2 & w1 & w2 & w3 &
          _ & E2 & _ & _ & _ & E & T & F).
    apply validate_empty in E2; [|exact Em].
    rewrite E2 in *. rewrite ltb_nan_l in *.
    rewrite (bind_step _ _ _ _ _ E).
    match goal with |- context [epochs_loop _ _ _ _ n (S epoch) ?t1 w3] =>
      destruct (IH (S epoch) t1 w3) as (t' & w' & evs & E' & T' & F' & NS & AN) end.
    match type of T with
    | _ = _ ++ ?l => set (evs1 := l) in *
    end.
    exists t', w', (evs1 ++ evs).
    split; [exact E'|].
    split; [rewrite T', T; symmetry; apply app_assoc|].
    split; [congruence|]. split.
    + unfold evs1. rewrite !in_app_iff. intros [[X|[X|[X|X]]]|X].
      * destruct X as [X|X]; [discriminate|].
        exact (no_save_in _ _ (train_events_no_save tsteps) X).
      * destruct X as [X|X]; [discriminate|].
        exact (no_save_in _ _ (validate_events_no_save vsteps) X).
      * destruct X as [X|[X|[]]]; discriminate.
      * destruct X.
      * exact (NS X).
    + unfold evs1. rewrite !sched_values_app. simpl.
      rewrite train_events_no_sched, validate_events_no_sched. simpl.
      constructor; [reflexivity | exact AN].
Qed.

(** The training branch, when it ends, taken apart. *)
Lemma training_Ok args m w m' w' :
  training args m w = Ok m' w' ->
  exists tds vds opt w2 t',
    disk w (arg_data args) SplitTrain = Some tds /\
    disk w (arg_data args) SplitVal = Some vds /\
    (0 < arg_batch_size args)%Z /\
    Adam (arg_learning_rate args) = Some opt /\
    trace w2 = trace w ++ [EvPrint "Reading data..."; EvPrint "Ready for training..."] /\
    fs w2 = fs w /\
    epochs_loop args
      {| dataset := tds; batch_size := Z.to_nat (arg_batch_size args);
         shuffle := true; drop_last := true |}
      {| dataset := vds; batch_size := Z.to_nat (arg_batch_size args);
         shuffle := false; drop_last := false |}
      CrossEntropyLoss (Z.to_nat (arg_epochs args)) 0
      (m, opt, ReduceLROnPlateau, np_inf) w2 = Ok t' w' /\
    m' = fst (fst (fst t')).
Proof.
  unfold training. intros E.
  apply bind_Ok in E as (u1 & w1 & E1 & E). apply emit_Ok in E1 as (T1 & F1 & D1).
  apply bind_Ok in E as (tds & w2 & E2 & E). apply new_VideoDataset_Ok in E2 as (-> & Dt).
  apply bind_Ok in E as (tdl & w2 & E2 & E). apply new_DataLoader_Ok in E2 as (Hbs & -> & ->).
  apply bind_Ok in E as (vds & w2 & E2 & E). apply new_VideoDataset_Ok in E2 as (-> & Dv).
  apply bind_Ok in E as (vdl & w2 & E2 & E). apply new_DataLoader_Ok in E2 as (_ & -> & ->).
  apply bind_Ok in E as (opt & w2 & E2 & E). apply lift_option_Ok in E2 as (Ad & ->).
  apply bind_Ok in E as (u2 & w2 & E2 & E). apply emit_Ok in E2 as (T2 & F2 & D2).
  apply bind_Ok in E as (t' & w3 & E3 & E).
  destruct t' as [[[m3 o3] s3] b3]. unfold ret in E. injection E as <- <-.
  exists tds, vds, opt, w2, (m3, o3, s3, b3).
  rewrite D1 in Dt, Dv.
  split; [exact Dt|]. split; [exact Dv|]. split; [exact Hbs|]. split; [exact Ad|].
  split; [rewrite T2, T1, <- app_assoc; reflexivity|].
  split; [congruence|]. split; [exact E3 | reflexivity].
Qed.

(** X8: with an empty validation split every validation loss is [nan], which
    is below nothing: a training, however many epochs it has, writes no
    checkpoint and leaves the files as they were. *)
Theorem empty_validation_never_saves args m w m' w' vds :
  training args m w = Ok m' w' ->
  disk w (arg_data args) SplitVal = Some vds ->
  items vds = [] ->
  fs w' = fs w /\
  ~ In (EvSave (best_path args)) (skipn (length (trace w)) (trace w')) /\
  Forall (fun v => v = NaN) (sched_values (skipn (length (trace w)) (trace w'))).
Proof.
  intros E Dv Em.
  apply training_Ok in E as (tds & vds' & opt & w2 & t' & _ & Dv' & _ & _ & T2 & F2 & E & _).
  rewrite Dv in Dv'. injection Dv' as <-.
  match type of E with epochs_loop _ ?tdl ?vdl ?c ?n ?e ?t _ = _ =>
    destruct (epochs_loop_empty_val args tdl vdl c n Em e t w2)
      as (t'' & w'' & evs & E' & T & F & NS & AN) end.
  rewrite E in E'. injection E' as <- <-.
  split; [congruence|].
  rewrite T, T2, <- app_assoc, skipn_app, skipn_all, Nat.sub_diag, skipn_O. simpl app.
  split.
  - intros [X|[X|X]]; [discriminate | discriminate | exact (NS X)].
  - exact AN.
Qed.

(** X13: the exit status of the script is 0 when [main] returns and 1 when it
    raises, and nothing else. *)
Theorem script_exit_status args w :
  (fst (script args w) = 0 <-> exists v w', main args w = Ok v w') /\
  (fst (script args w) = 1 <-> exists e w', main args w = Raise e w').
Proof.
  unfold script. destruct (main args w) as [v w'|e w'] eqn:E.
  - pose proof E as E'.
    apply main_Ok in E' as (m & ds & loader & w1 & EP & EI).
    pose proof (prepare_Ok _ _ _ _ _ _ EP) as (_ & Hds & Seq & _).
    apply infer_Ok in EI
      as (nd & sd & predictions & m2 & w2 & w3 & evs &
          _ & _ & _ & _ & _ & _ & _ & _ & _ & _ & ->); [|exact Hds|exact Seq].
    simpl. split; split; intros X; eauto; try discriminate.
    destruct X as (? & ? & X). discriminate.
  - simpl. split; split; intros X; eauto; try discriminate.
    destruct X as (? & ? & X). discriminate.
Qed.

(** *** Runs that raise *)

Lemma raising_of_always {A} (R : World -> World -> Prop) (c : Py A) :
  always R c -> raising R c.
Proof. intros Hc w e w' E. specialize (Hc w). now rewrite E in Hc. Qed.

Lemma raising_bind {A B} P Q (c : Py A) (k : A -> Py B) :
  always (within P Q) c -> (forall a, raising (within P Q) (k a)) ->
  raising (within P Q) (bind c k).
Proof.
  intros Hc Hk w e w' E. specialize (Hc w). unfold bind in E.
  destruct (c w) as [a w1|e1 w1]; simpl in Hc.
  - eapply within_trans; [exact Hc | exact (Hk a w1 e w' E)].
  - injection E as _ <-. exact Hc.
Qed.

Lemma raising_infer Q args m ds loader :
  (forall e, inference_event e -> Q e) -> Q (EvLoadStateDict (best_path args)) ->
  raising (within (fun _ => False) Q) (infer args m ds loader).
Proof.
  intros HI HL. unfold infer.
  apply raising_bind; [now apply always_load_best | intros m1].
  apply raising_bind.
  { apply always_predict; intros; now apply HI. }
  intros [[ps ls] m2].
  apply raising_bind; [apply always_new_DataFrame | intros df].
  intros w e w' E.
  destruct (to_csv_spec df (csv_path args) w) as (w1 & E1 & _).
  rewrite (bind_step _ _ _ _ _ E1) in E. discriminate.
Qed.

(** X12: a run of [main] that raises has not written the table: it has
    changed no file, except possibly the checkpoint. *)
Theorem failed_run_writes_no_table args w e w' :
  main args w = Raise e w' ->
  fs w' !! csv_path args = fs w !! csv_path args /\
  forall path, path <> best_path args -> fs w' !! path = fs w !! path.
Proof.
  intros E.
  assert (R : raising (within (fun p => p = best_path args) (fun _ => True)) (main args)).
  { unfold main. apply raising_bind.
    - apply always_prepare; auto.
    - intros [[m ds] loader]. intros w0 e0 w0' E0.
      eapply within_weaken; [| |exact (raising_infer (fun _ => True) args m ds loader
                                         (fun _ _ => I) I w0 e0 w0' E0)].
      + intros p [].
      + auto. }
  destruct (R w e w' E) as (F & _).
  split; [|exact F].
  apply F. intros X. symmetry in X. exact (best_path_not_csv args X).
Qed.

End Properties.

(** ** The properties on the small framework *)

Import Stub.

(** C1 (the script departs from it): on a batch of two videos, with two
    classes, [predict] stores 3 for both videos: the position of the
    maximum in the flattened logits of the whole batch, where the
    maxima of the two rows are at 0 and 1. *)
Theorem predict_flat_argmax :
  predict model1 test_loader2 (world ∅)
  = Ok ([of_Z 3; of_Z 3], [of_Z (-1); of_Z (-1)], set_training false model1)
       (world_of (predict model1 test_loader2 (world ∅))) /\
  trace (world_of (predict model1 test_loader2 (world ∅)))
  = [EvModelEval; EvForward false [[of_Z 0; of_Z 0]; [of_Z 0; of_Z 1]]] /\
  np_argmax [[of_Z 0; of_Z 0]; [of_Z 0; of_Z 1]] = Some 3%nat /\
  np_argmax_rows [[of_Z 0; of_Z 0]; [of_Z 0; of_Z 1]] = Some [0; 1]%nat.
Proof.
  split; [vm_compute; reflexivity|].
  split; [vm_compute; reflexivity|].
  split; vm_compute; reflexivity.
Qed.

(** The same in a whole run: with [--batch-size 2] the table has the
    prediction 3 in both rows. *)
Lemma main_flat_argmax :
  main (args_predict 2) world1 = Ok PyNone (world_of (main (args_predict 2) world1)) /\
  fs (world_of (main (args_predict 2) world1)) !! "baseline_test_predictions.csv"
  = Some {| readable := true;
            content := Table ["video_names"; "predictions"; "labels"]
                             [[CStr "a.mp4"; CNum (of_Z 3); CNum (of_Z (-1))];
                              [CStr "b.mp4"; CNum (of_Z 3); CNum (of_Z (-1))]] |}.
Proof. split; vm_compute; reflexivity. Qed.



Lemma inference_uses_best_checkpoint_witness :
  main (args_batch 1) world1 = Ok PyNone (world_of (main (args_batch 1) world1)) /\
  exists (nd : Node) (sd : StateDict) (pre evs : list Event) (nd' : Node),
    readable nd = true /\ content nd = Checkpoint sd /\
    trace (world_of (main (args_batch 1) world1))
    = pre ++ EvLoadStateDict (best_path (args_batch 1)) :: EvModelEval :: evs
          ++ [EvToCsv (csv_path (args_batch 1))] /\
    fs (world_of (main (args_batch 1) world1)) !! csv_path (args_batch 1) = Some nd'.
Proof.
  assert (E : main (args_batch 1) world1
              = Ok PyNone (world_of (main (args_batch 1) world1)))
    by (vm_compute; reflexivity).
  split; [exact E|].
  destruct (inference_uses_best_checkpoint _ _ _ _ E)
    as (m & ds & loader & w1 & nd & sd & ml & ps & ls & m2 & w2 & w3 & evs & nd' &
        _ & _ & R & C & _ & _ & _ & _ & _ & _ & T & L & _).
  exists nd, sd, (trace w1), evs, nd'. auto.
Defined.

Lemma csv_rows_witness :
  main (args_predict 2) world1 = Ok PyNone (world_of (main (args_predict 2) world1)) /\
  exists (ds : VideoDataset) (nd : Node) rows,
    disk world1 (arg_data (args_predict 2)) SplitTest = Some ds /\
    fs (world_of (main (args_predict 2) world1)) !! csv_path (args_predict 2) = Some nd /\
    content nd = Table ["video_names"; "predictions"; "labels"] rows /\
    length rows = length (items ds).
Proof.
  assert (E : main (args_predict 2) world1
              = Ok PyNone (world_of (main (args_predict 2) world1)))
    by (vm_compute; reflexivity).
  split; [exact E|].
  destruct (csv_rows _ _ _ _ E) as (ds & nd & rows & D & L & C & N & _).
  exists ds, nd, rows. auto.
Defined.

Lemma missing_checkpoint_aborts_witness :
  prepare (args_predict 2) (world ∅)
  = Ok (value_of (model1, test_split, test_loader2) (prepare (args_predict 2) (world ∅)))
       (world_of (prepare (args_predict 2) (world ∅))) /\
  fs (world_of (prepare (args_predict 2) (world ∅))) !! best_path (args_predict 2) = None /\
  exists e,
    main (args_predict 2) (world ∅) = Raise e (world_of (prepare (args_predict 2) (world ∅))) /\
    is_OSError e = true /\
    script (args_predict 2) (world ∅) = (1, world_of (prepare (args_predict 2) (world ∅))).
Proof.
  assert (E : prepare (args_predict 2) (world ∅)
              = Ok (fst (fst (value_of (model1, test_split, test_loader2)
                                       (prepare (args_predict 2) (world ∅)))),
                    test_split, test_loader2)
                   (world_of (prepare (args_predict 2) (world ∅))))
    by (vm_compute; reflexivity).
  assert (L : fs (world_of (prepare (args_predict 2) (world ∅)))
              !! best_path (args_predict 2) = None)
    by (vm_compute; reflexivity).
  split; [vm_compute; reflexivity|]. split; [exact L|].
  exact (missing_checkpoint_aborts _ _ _ _
           (or_intror (ex_intro _ _ (ex_intro _ _ E))) (or_introl L)).
Defined.

Lemma exit_status_zero_witness :
  main (args_batch 1) world1 = Ok PyNone (world_of (main (args_batch 1) world1)) /\
  PyNone = PyNone /\ sys_exit PyNone = 0 /\
  script (args_batch 1) world1 = (0, world_of (main (args_batch 1) world1)).
Proof.
  assert (E : main (args_batch 1) world1
              = Ok PyNone (world_of (main (args_batch 1) world1)))
    by (vm_compute; reflexivity).
  split; [exact E|]. exact (exit_status_zero _ _ _ _ E).
Defined.

Lemma unknown_model_type_is_avg_witness :
  arg_model_type args_misspelt <> "cnn-rnn" /\
  exists m w',
    create_model args_misspelt (world ∅) = Ok m w' /\
    m_kind m = AvgCNNModel /\
    trace w' = trace (world ∅)
               ++ [EvPrint "Creating model...";
                   EvNewModel AvgCNNModel (arg_frames_cnt args_misspelt)].
Proof.
  assert (Ne : arg_model_type args_misspelt <> "cnn-rnn") by (simpl; discriminate).
  split; [exact Ne|].
  exact (unknown_model_type_is_avg args_misspelt (world ∅) Ne).
Defined.


(** Continuing a training without a checkpoint stops before any data is
    read: only the model has been made. *)
Lemma continue_without_checkpoint :
  main args_continue (world ∅)
  = Raise FileNotFoundError (world_of (main args_continue (world ∅))) /\
  trace (world_of (main args_continue (world ∅)))
  = [EvPrint "Creating model..."; EvNewModel AvgCNNModel 16] /\
  script args_continue (world ∅) = (1, world_of (main args_continue (world ∅))).
Proof. split; [|split]; vm_compute; reflexivity. Qed.

(** ** Further properties on the small framework *)

Lemma stub_logits_shape : logits_shape 2.
Proof.
  intros k f t p b vs. simpl. unfold stub_forward. simpl. split.
  - apply length_map.
  - induction vs as [|v vs IH]; simpl; constructor; [reflexivity | exact IH].
Qed.

Lemma stub_logits_nonempty : logits_nonempty.
Proof.
  intros k f t p b vs NE. simpl. destruct vs as [|v vs]; [congruence|].
  simpl. discriminate.
Qed.

Lemma sequential_test_loader2 : sequential test_loader2.
Proof. unfold sequential. simpl. repeat split; lia. Qed.

Lemma sequential_test_loader1 : sequential test_loader1.
Proof. unfold sequential. simpl. repeat split; lia. Qed.

Lemma sequential_val_loader1 : sequential val_loader1.
Proof. unfold sequential. simpl. repeat split; lia. Qed.

Lemma predict_only_infers_witness :
  predict model1 test_loader2 (world ∅)
  = Ok ([of_Z 3; of_Z 3], [of_Z (-1); of_Z (-1)], set_training false model1)
       (world_of (predict model1 test_loader2 (world ∅))) /\
  m_params (set_training false model1) = m_params model1 /\
  m_grads (set_training false model1) = m_grads model1.
Proof.
  assert (E : predict model1 test_loader2 (world ∅)
              = Ok ([of_Z 3; of_Z 3], [of_Z (-1); of_Z (-1)], set_training false model1)
                   (world_of (predict model1 test_loader2 (world ∅))))
    by (vm_compute; reflexivity).
  split; [exact E|].
  exact (proj2 (proj2 (predict_only_infers model1 test_loader2 (world ∅))) _ _ _ E).
Defined.

Lemma main_writes_two_files_witness :
  "notes.txt" <> best_path (args_batch 1) /\
  "notes.txt" <> csv_path (args_batch 1) /\
  fs (world_of (main (args_batch 1) world_notes)) !! "notes.txt"
  = fs world_notes !! "notes.txt".
Proof.
  assert (NB : "notes.txt" <> best_path (args_batch 1)) by (vm_compute; discriminate).
  assert (NC : "notes.txt" <> csv_path (args_batch 1)) by (vm_compute; discriminate).
  split; [exact NB|]. split; [exact NC|].
  exact (main_writes_two_files (args_batch 1) world_notes "notes.txt" NB NC).
Defined.

Lemma predict_only_run_witness :
  arg_predict (args_predict 2) = true /\
  fs (world_of (main (args_predict 2) world_notes)) !! best_path (args_predict 2)
  = fs world_notes !! best_path (args_predict 2).
Proof.
  assert (P : arg_predict (args_predict 2) = true) by reflexivity.
  split; [exact P|].
  exact (proj1 (proj2 (predict_only_run (args_predict 2) world_notes P))).
Defined.

Lemma predict_one_index_per_batch_witness :
  sequential test_loader2 /\
  predict model1 test_loader2 (world ∅)
  = Ok ([of_Z 3; of_Z 3], [of_Z (-1); of_Z (-1)], set_training false model1)
       (world_of (predict model1 test_loader2 (world ∅))) /\
  exists steps : list PredStep,
    Forall flat_argmax steps /\
    [of_Z 3; of_Z 3] = flat_map pred_entries steps.
Proof.
  assert (E : predict model1 test_loader2 (world ∅)
              = Ok ([of_Z 3; of_Z 3], [of_Z (-1); of_Z (-1)], set_training false model1)
                   (world_of (predict model1 test_loader2 (world ∅))))
    by (vm_compute; reflexivity).
  split; [exact sequential_test_loader2|]. split; [exact E|].
  destruct (predict_one_index_per_batch _ _ _ _ _ _ _ sequential_test_loader2 E)
    as (steps & _ & _ & AM & _ & EP & _).
  exists steps. auto.
Defined.

Lemma predict_single_video_batches_witness :
  logits_shape 2 /\ sequential test_loader1 /\ batch_size test_loader1 = 1%nat /\
  predict model1 test_loader1 (world ∅)
  = Ok ([of_Z 0; of_Z 1], [of_Z (-1); of_Z (-1)], set_training false model1)
       (world_of (predict model1 test_loader1 (world ∅))) /\
  exists steps : list PredStep,
    map (fun s => fst (pred_batch s)) steps
    = map (fun x => [fst x]) (items (dataset test_loader1)) /\
    Forall (forwarded (set_training false model1)) steps /\
    [of_Z 0; of_Z 1] = map (fun s => of_nat (pred_index s)) steps.
Proof.
  assert (E : predict model1 test_loader1 (world ∅)
              = Ok ([of_Z 0; of_Z 1], [of_Z (-1); of_Z (-1)], set_training false model1)
                   (world_of (predict model1 test_loader1 (world ∅))))
    by (vm_compute; reflexivity).
  split; [exact stub_logits_shape|]. split; [exact sequential_test_loader1|].
  split; [reflexivity|]. split; [exact E|].
  destruct (predict_single_video_batches 2 _ _ _ _ _ _ _ stub_logits_shape
              sequential_test_loader1 eq_refl E) as (steps & Al & Fw & _ & EP & _).
  exists steps. auto.
Defined.

Lemma predict_returns_witness :
  logits_nonempty /\ sequential test_loader2 /\
  model_eval model1 (world ∅)
  = Ok (set_training false model1) (world_of (model_eval model1 (world ∅))) /\
  iter_loader test_loader2 (world_of (model_eval model1 (world ∅)))
  = Ok (value_of [] (iter_loader test_loader2 (world_of (model_eval model1 (world ∅)))))
       (world_of (iter_loader test_loader2 (world_of (model_eval model1 (world ∅))))) /\
  exists predictions labels m' w',
    predict model1 test_loader2 (world ∅) = Ok (predictions, labels, m') w' /\
    length predictions = length (items (dataset test_loader2)).
Proof.
  assert (E0 : model_eval model1 (world ∅)
               = Ok (set_training false model1) (world_of (model_eval model1 (world ∅))))
    by reflexivity.
  assert (E1 : iter_loader test_loader2 (world_of (model_eval model1 (world ∅)))
               = Ok (value_of [] (iter_loader test_loader2
                                    (world_of (model_eval model1 (world ∅)))))
                    (world_of (iter_loader test_loader2
                                 (world_of (model_eval model1 (world ∅))))))
    by reflexivity.
  split; [exact stub_logits_nonempty|]. split; [exact sequential_test_loader2|].
  split; [exact E0|]. split; [exact E1|].
  destruct (predict_returns model1 test_loader2 (world ∅) _ _ _ stub_logits_nonempty
                            sequential_test_loader2 E0 E1)
    as (ps & ls & m' & w' & _ & E & L & _).
  exists ps, ls, m', w'. auto.
Defined.

Lemma validate_covers_split_witness :
  sequential val_loader1 /\
  validate model1 val_loader1 CrossEntropyLoss (world ∅)
  = Ok (value_of (NaN, model1) (validate model1 val_loader1 CrossEntropyLoss (world ∅)))
       (world_of (validate model1 val_loader1 CrossEntropyLoss (world ∅))) /\
  exists steps : list Step,
    flat_map (fun s => fst (step_batch s)) steps = map fst (items (dataset val_loader1)) /\
    flat_map (fun s => snd (step_batch s)) steps = map snd (items (dataset val_loader1)) /\
    fst (value_of (NaN, model1) (validate model1 val_loader1 CrossEntropyLoss (world ∅)))
    = np_mean (map step_loss steps).
Proof.
  assert (E : validate model1 val_loader1 CrossEntropyLoss (world ∅)
              = Ok (fst (value_of (NaN, model1)
                           (validate model1 val_loader1 CrossEntropyLoss (world ∅))),
                    snd (value_of (NaN, model1)
                           (validate model1 val_loader1 CrossEntropyLoss (world ∅))))
                   (world_of (validate model1 val_loader1 CrossEntropyLoss (world ∅))))
    by (vm_compute; reflexivity).
  split; [exact sequential_val_loader1|].
  split; [rewrite E at 1; now destruct (value_of _ _)|].
  destruct (validate_covers_split _ _ _ _ _ _ _ sequential_val_loader1 E)
    as (steps & CV & CL & _ & _ & EV & _).
  exists steps. auto.
Defined.

Lemma empty_validation_never_saves_witness :
  training (args_batch 1) model1 world_noval
  = Ok (value_of model1 (training (args_batch 1) model1 world_noval))
       (world_of (training (args_batch 1) model1 world_noval)) /\
  disk world_noval (arg_data (args_batch 1)) SplitVal = Some empty_split /\
  items empty_split = [] /\
  fs (world_of (training (args_batch 1) model1 world_noval)) = fs world_noval.
Proof.
  assert (E : training (args_batch 1) model1 world_noval
              = Ok (value_of model1 (training (args_batch 1) model1 world_noval))
                   (world_of (training (args_batch 1) model1 world_noval)))
    by (vm_compute; reflexivity).
  assert (D : disk world_noval (arg_data (args_batch 1)) SplitVal = Some empty_split)
    by reflexivity.
  split; [exact E|]. split; [exact D|]. split; [reflexivity|].
  exact (proj1 (empty_validation_never_saves _ _ _ _ _ _ E D eq_refl)).
Defined.

Lemma failed_run_writes_no_table_witness :
  main (args_predict 2) (world ∅)
  = Raise FileNotFoundError (world_of (main (args_predict 2) (world ∅))) /\
  fs (world_of (main (args_predict 2) (world ∅))) !! csv_path (args_predict 2)
  = fs (world ∅) !! csv_path (args_predict 2).
Proof.
  assert (E : main (args_predict 2) (world ∅)
              = Raise FileNotFoundError (world_of (main (args_predict 2) (world ∅))))
    by (vm_compute; reflexivity).
  split; [exact E|].
  exact (proj1 (failed_run_writes_no_table _ _ _ _ E)).
Defined.

Lemma script_exit_status_witness :
  main (args_predict 2) (world ∅)
  = Raise FileNotFoundError (world_of (main (args_predict 2) (world ∅))) /\
  fst (script (args_predict 2) (world ∅)) = 1.
Proof.
  assert (E : main (args_predict 2) (world ∅)
              = Raise FileNotFoundError (world_of (main (args_predict 2) (world ∅))))
    by (vm_compute; reflexivity).
  split; [exact E|].
  exact (proj2 (proj2 (script_exit_status (args_predict 2) (world ∅)))
               (ex_intro _ _ (ex_intro _ _ E))).
Defined.

Lemma best_val_loss_is_lowest_witness :
  exists m' o' s' best' w' evs,
    epochs_loop (args_batch 1) short_loader val_loader1 CrossEntropyLoss 2 0
                (model1, tt, tt, np_inf) (world ∅) = Ok (m', o', s', best') w' /\
    ltb best' np_inf = true /\
    In (EvSave (best_path (args_batch 1))) evs.
Proof.
  destruct (best_val_loss_is_lowest (args_batch 1) short_loader val_loader1
              CrossEntropyLoss 2 0%nat model1 tt tt np_inf (world ∅))
    as (m' & o' & s' & best' & w' & evs & E & _ & _ & _ & _ & _ & Sv).
  assert (L : ltb best' np_inf = true).
  { assert (X : epochs_loop (args_batch 1) short_loader val_loader1 CrossEntropyLoss 2 0
                  (model1, tt, tt, np_inf) (world ∅)
                = Ok (set_training false model1, tt, tt, of_Z 1)
                     (world_of (epochs_loop (args_batch 1) short_loader val_loader1
                                  CrossEntropyLoss 2 0 (model1, tt, tt, np_inf) (world ∅))))
      by (vm_compute; reflexivity).
    pose proof (eq_trans (eq_sym E) X) as Y. injection Y as _ _ _ -> _. reflexivity. }
  exists m', o', s', best', w', evs.
  split; [exact E|]. split; [exact L|]. apply Sv. exact L.
Defined.
